(** * AAMU R.E.D. Guest Log: a shallow embedding of [assets/js/app.js]

    The guest log is a static web application whose whole state is one
    array of visit records kept in the browser's [localStorage].  This file
    embeds the data operations of [app.js] (name normalisation, the
    auto sign-out policy, sign-in, sign-out, the records view and the CSV
    export) as Rocq functions and proves the properties the specification
    states about them.

    Modelling conventions.
    - A JavaScript string is a [string]; a character stands for the UTF-16
      code unit of the same number, so the model covers the strings whose
      code units lie in U+0000..U+00FF (Basic Latin and Latin-1).
    - The wall clock ([Date.now()], [new Date()]) is an input: every handler
      takes the clock readings it makes as arguments, a time being the
      number of milliseconds since the epoch, in [Z].  Times are stored as
      the ISO-8601 strings [toISOString] writes, and read back by
      [getTime].
    - [localStorage] is threaded explicitly: a [Storage] holds the value
      stored under [STORAGE_KEY] and the log of the writes made to it.
    - The DOM is reduced to what a handler reads (the form values) and to
      the alert it shows. *)

From Stdlib Require Import ZArith Lia Bool Ascii String.
From stdpp Require Import base list.

Local Open Scope string_scope.

(** ** Characters and the string built-ins used by the application *)

Module JS.

(** [WhiteSpace] and [LineTerminator] code units below U+0100: TAB, LF, VT,
    FF, CR, SPACE and NO-BREAK SPACE.  Both [String.prototype.trim] and the
    regular expression class [\s] use this set. *)
Definition isWhiteSpace (c : ascii) : bool :=
  let n := N_of_ascii c in
  ((9 <=? n) && (n <=? 13) || (n =? 32) || (n =? 160))%N.

(** [toLowerCase] on one code unit: A..Z, and the Latin-1 capitals
    U+00C0..U+00DE without the multiplication sign U+00D7, move up by 32. *)
Definition toLowerChar (c : ascii) : ascii :=
  let n := N_of_ascii c in
  if ((65 <=? n) && (n <=? 90)
      || (192 <=? n) && (n <=? 222) && negb (n =? 215))%N
  then ascii_of_N (n + 32) else c.

Fixpoint toLowerCase (s : string) : string :=
  match s with
  | "" => ""
  | String c s' => String (toLowerChar c) (toLowerCase s')
  end.

Fixpoint trimStart (s : string) : string :=
  match s with
  | "" => ""
  | String c s' => if isWhiteSpace c then trimStart s' else s
  end.

Fixpoint trimEnd (s : string) : string :=
  match s with
  | "" => ""
  | String c s' =>
      match trimEnd s' with
      | "" => if isWhiteSpace c then "" else String c ""
      | t => String c t
      end
  end.

(** [s.trim()] *)
Definition trim (s : string) : string := trimEnd (trimStart s).

(** [s.split(/\s+/)]: the substrings between the maximal runs of white
    space.  A run at the start or at the end of [s] leaves an empty
    substring there, and the empty string splits into one empty substring.
    [inRun] tells that the previous character belonged to a separator. *)
Fixpoint splitWs (inRun : bool) (s : string) : list string :=
  match s with
  | "" => [""]
  | String c s' =>
      if isWhiteSpace c then
        if inRun then splitWs true s' else "" :: splitWs true s'
      else
        match splitWs false s' with
        | t :: ts => String c t :: ts
        | [] => [String c ""]
        end
  end.

Definition split_ws (s : string) : list string := splitWs false s.

(** [parts.join(sep)] *)
Fixpoint join (sep : string) (parts : list string) : string :=
  match parts with
  | [] => ""
  | [p] => p
  | p :: ps => p ++ sep ++ join sep ps
  end.

(** [s.startsWith(q)] *)
Fixpoint startsWith (s q : string) : bool :=
  match q, s with
  | "", _ => true
  | String _ _, "" => false
  | String b q', String a s' => Ascii.eqb a b && startsWith s' q'
  end.

(** [s.includes(q)] *)
Fixpoint includes (s q : string) : bool :=
  startsWith s q ||
  match s with
  | "" => false
  | String _ s' => includes s' q
  end.

(** Truthiness of a string: every string but the empty one. *)
Definition truthy (s : string) : bool :=
  match s with "" => false | _ => true end.

(** [String(n)] for an integer [n]: its decimal digits, with a minus sign
    when negative.  (Exponent notation starts at 1e21, far above any time
    value.)  [fuel] bounds the number of digits. *)
Definition digitChar (d : Z) : ascii := ascii_of_N (48 + Z.to_N d).

Fixpoint digitsOf (fuel : nat) (n : Z) : string :=
  match fuel with
  | O => ""
  | S fuel' =>
      (if n <? 10 then "" else digitsOf fuel' (n / 10))
      ++ String (digitChar (n mod 10)) ""
  end%Z.

Definition numberToString (n : Z) : string :=
  let a := Z.abs n in
  (if (n <? 0)%Z then "-" else "") ++ digitsOf (S (Z.to_nat (Z.log2 a))) a.

(** *** Dates

    A [Date] holds a time value: an integral number of milliseconds since
    1970-01-01T00:00:00Z of absolute value at most 8.64e15, or [NaN]. *)

Definition maxTime : Z := 8640000000000000.
Definition msPerDay : Z := 86400000.

Definition isTimeValue (t : Z) : Prop := (- maxTime <= t <= maxTime)%Z.

(** Year, month (1..12) and day of the month of a day number counted from
    1970-01-01, in the proleptic Gregorian calendar. *)
Definition civilFromDays (days : Z) : Z * Z * Z :=
  (let z := days + 719468 in
   let era := z / 146097 in
   let doe := z - era * 146097 in
   let yoe := (doe - doe / 1460 + doe / 36524 - doe / 146096) / 365 in
   let doy := doe - (365 * yoe + yoe / 4 - yoe / 100) in
   let mp := (5 * doy + 2) / 153 in
   let d := doy - (153 * mp + 2) / 5 + 1 in
   let m := if mp <? 10 then mp + 3 else mp - 9 in
   let y := yoe + era * 400 + (if m <=? 2 then 1 else 0) in
   (y, m, d))%Z.

Definition daysFromCivil (y m d : Z) : Z :=
  (let y' := if m <=? 2 then y - 1 else y in
   let era := y' / 400 in
   let yoe := y' - era * 400 in
   let doy := (153 * (if 2 <? m then m - 3 else m + 9) + 2) / 5 + d - 1 in
   let doe := yoe * 365 + yoe / 4 - yoe / 100 + doy in
   era * 146097 + doe - 719468)%Z.

(** The [width] low decimal digits of [n], zero padded. *)
Fixpoint padDigits (width : nat) (n : Z) : string :=
  match width with
  | O => ""
  | S w => padDigits w (n / 10) ++ String (digitChar (n mod 10)) ""
  end.

(** [new Date(t).toISOString()] for a time value [t]:
    [YYYY-MM-DDTHH:mm:ss.sssZ], the year written with a sign and six digits
    outside 0..9999.  Outside the time values JavaScript raises a
    [RangeError]; the application calls it on clock readings and on
    deadlines that a clock reading has reached, which are time values (see
    [due_deadline_isTimeValue]). *)
Definition toISOString (t : Z) : string :=
  let '(y, m, d) := civilFromDays (t / msPerDay) in
  let ms := (t mod msPerDay)%Z in
  (if ((0 <=? y) && (y <=? 9999))%Z then padDigits 4 y
   else (if (y <? 0)%Z then "-" else "+") ++ padDigits 6 (Z.abs y))
  ++ "-" ++ padDigits 2 m ++ "-" ++ padDigits 2 d
  ++ "T" ++ padDigits 2 (ms / 3600000)
  ++ ":" ++ padDigits 2 (ms / 60000 mod 60)
  ++ ":" ++ padDigits 2 (ms / 1000 mod 60)
  ++ "." ++ padDigits 3 (ms mod 1000) ++ "Z".

(** Reading a fixed number of decimal digits, and one expected character. *)
Definition digitValue (c : ascii) : option Z :=
  let n := N_of_ascii c in
  if ((48 <=? n) && (n <=? 57))%N then Some (Z.of_N n - 48)%Z else None.

Fixpoint readDigits (width : nat) (acc : Z) (s : string) : option (Z * string) :=
  match width, s with
  | O, _ => Some (acc, s)
  | S w, String c s' =>
      match digitValue c with
      | Some v => readDigits w (acc * 10 + v) s'
      | None => None
      end
  | S _, "" => None
  end.

Definition readChar (c : ascii) (s : string) : option string :=
  match s with
  | String a s' => if Ascii.eqb a c then Some s' else None
  | "" => None
  end.

Definition readYear (s : string) : option (Z * string) :=
  match s with
  | String "+" s' => readDigits 6 0 s'
  | String "-" s' =>
      match readDigits 6 0 s' with
      | Some (y, rest) => if (y =? 0)%Z then None else Some (- y, rest)%Z
      | None => None
      end
  | _ => readDigits 4 0 s
  end.

Definition daysInMonth (y m : Z) : Z :=
  (daysFromCivil (if m =? 12 then y + 1 else y) (if m =? 12 then 1 else m + 1) 1
   - daysFromCivil y m 1)%Z.

(** [new Date(s).getTime()], [None] standing for [NaN].  The model reads the
    one format the application writes, that of [toISOString]; every other
    string is an invalid date here (engines accept further, partly
    engine-specific formats, which the application never stores). *)
Definition getTime (s : string) : option Z :=
  '(y, s) ← readYear s;
  s ← readChar "-" s;
  '(m, s) ← readDigits 2 0 s;
  s ← readChar "-" s;
  '(d, s) ← readDigits 2 0 s;
  s ← readChar "T" s;
  '(hh, s) ← readDigits 2 0 s;
  s ← readChar ":" s;
  '(mm, s) ← readDigits 2 0 s;
  s ← readChar ":" s;
  '(ss, s) ← readDigits 2 0 s;
  s ← readChar "." s;
  '(ms, s) ← readDigits 3 0 s;
  s ← readChar "Z" s;
  match s with
  | "" =>
      let t := (daysFromCivil y m d * msPerDay
                + hh * 3600000 + mm * 60000 + ss * 1000 + ms)%Z in
      if ((1 <=? m) && (m <=? 12) && (1 <=? d) && (d <=? daysInMonth y m)
          && (hh <=? 23) && (mm <=? 59) && (ss <=? 59)
          && (- maxTime <=? t) && (t <=? maxTime))%Z
      then Some t else None
  | _ => None
  end.

End JS.

(** ** Helpers of [app.js] *)

(** [normalizeName(full)] *)
Definition normalizeName (full : string) : string :=
  JS.join " " (JS.split_ws (JS.toLowerCase (JS.trim full))).

(** [makeNameKey(first, last)]: the template literal [`${first} ${last}`]. *)
Definition makeNameKey (first last : string) : string :=
  normalizeName (first ++ " " ++ last).

(** [STORAGE_KEY], the one key of [localStorage] the application uses. *)
Definition STORAGE_KEY : string := "aamu_red_guest_log_v1".

(** [AUTO_SIGNOUT_HOURS] *)
Definition AUTO_SIGNOUT_HOURS : Z := 8.

(** [nowISO()], at the clock reading [now]. *)
Definition nowISO (now : Z) : string := JS.toISOString now.

(** ** The visit record and the store *)

(** One element of the stored array, with the field names of the wire
    format. *)
Record VisitRecord := mkVisitRecord {
  id : string;
  firstName : string;
  lastName : string;
  agency : string;
  reason : string;
  otherDetails : string;
  signInAt : string;
  signOutAt : string;
  autoSignedOut : bool;
  nameKey : string
}.

(** The two assignments the application makes to a stored record:
    [r.signOutAt = v] and [r.autoSignedOut = b]. *)
Definition set_signOutAt (v : string) (r : VisitRecord) : VisitRecord :=
  {| id := id r; firstName := firstName r; lastName := lastName r;
     agency := agency r; reason := reason r; otherDetails := otherDetails r;
     signInAt := signInAt r; signOutAt := v;
     autoSignedOut := autoSignedOut r; nameKey := nameKey r |}.

Definition set_autoSignedOut (b : bool) (r : VisitRecord) : VisitRecord :=
  {| id := id r; firstName := firstName r; lastName := lastName r;
     agency := agency r; reason := reason r; otherDetails := otherDetails r;
     signInAt := signInAt r; signOutAt := signOutAt r;
     autoSignedOut := b; nameKey := nameKey r |}.

(** A record is open while its [signOutAt] is falsy, that is, empty. *)
Definition isOpen (r : VisitRecord) : bool := negb (JS.truthy (signOutAt r)).

(** The calls made on [localStorage] for [STORAGE_KEY]. *)
Inductive StorageOp :=
| SetItem (value : list VisitRecord)
| RemoveItem.

(** [localStorage] as the application sees it: the array stored under
    [STORAGE_KEY] ([None] when the key is absent) and the calls that wrote
    to it, oldest first.  The value is kept as the array that
    [JSON.stringify] wrote and [JSON.parse] reads back. *)
Record Storage := mkStorage {
  item : option (list VisitRecord);
  writes : list StorageOp
}.

(** [loadLog()] *)
Definition loadLog (st : Storage) : list VisitRecord :=
  match item st with
  | Some raw => raw
  | None => []
  end.

(** [saveLog(records)] *)
Definition saveLog (records : list VisitRecord) (st : Storage) : Storage :=
  {| item := Some records; writes := (writes st ++ [SetItem records])%list |}.

(** [localStorage.removeItem(STORAGE_KEY)] *)
Definition removeItem (st : Storage) : Storage :=
  {| item := None; writes := (writes st ++ [RemoveItem])%list |}.

(** ** The auto sign-out policy *)

(** [deadlineMs] of a record: [NaN] ([None]) when [signInAt] is no date. *)
Definition deadlineMs (r : VisitRecord) : option Z :=
  signInMs ← JS.getTime (signInAt r);
  Some (signInMs + AUTO_SIGNOUT_HOURS * 60 * 60 * 1000)%Z.

(** The [for (const r of records)] loop of [ensureAutoSignOut]: the array
    after the loop and the final value of [changed]. *)
Fixpoint autoSignOutLoop (now : Z) (records : list VisitRecord) (changed : bool)
  : list VisitRecord * bool :=
  match records with
  | [] => ([], changed)
  | r :: rest =>
      if JS.truthy (signOutAt r) then
        let '(rest', changed') := autoSignOutLoop now rest changed in
        (r :: rest', changed')
      else
        match deadlineMs r with
        | Some d =>
            if (now >=? d)%Z then
              let r' := set_autoSignedOut true
                          (set_signOutAt (JS.toISOString d) r) in
              let '(rest', changed') := autoSignOutLoop now rest true in
              (r' :: rest', changed')
            else
              let '(rest', changed') := autoSignOutLoop now rest changed in
              (r :: rest', changed')
        | None =>
            let '(rest', changed') := autoSignOutLoop now rest changed in
            (r :: rest', changed')
        end
  end.

(** [ensureAutoSignOut()], the clock reading [now]. *)
Definition ensureAutoSignOut (st : Storage) (now : Z) : Storage :=
  let '(records, changed) := autoSignOutLoop now (loadLog st) false in
  if changed then saveLog records st else st.

(** ** Sign-out lookup *)

(** The loop [for (let i = records.length - 1; i >= 0; i--)] of
    [findActiveByNameKey], [n] being [i + 1]. *)
Fixpoint scanDown (records : list VisitRecord) (key : string) (n : nat)
  : option nat :=
  match n with
  | O => None
  | S i =>
      match records !! i with
      | Some r =>
          if negb (JS.truthy (signOutAt r)) && String.eqb (nameKey r) key
          then Some i
          else scanDown records key i
      | None => scanDown records key i
      end
  end.

(** [findActiveByNameKey(nameKey)]: [{ records, index }] or [null]. *)
Definition findActiveByNameKey (st : Storage) (key : string)
  : option (list VisitRecord * nat) :=
  let records := loadLog st in
  index ← scanDown records key (length records);
  Some (records, index).

(** ** CSV export *)

Definition LF : ascii := "010"%char.
Definition DQUOTE : ascii := "034"%char.
Definition COMMA : ascii := ","%char.

(** The test of [escapeCSV]: does [s] hold a double quote, a comma or a
    line feed? *)
Fixpoint testSpecial (s : string) : bool :=
  match s with
  | "" => false
  | String c s' =>
      Ascii.eqb c DQUOTE || Ascii.eqb c COMMA || Ascii.eqb c LF
      || testSpecial s'
  end.

(** The replacement of [escapeCSV]: every double quote of [s] doubled. *)
Fixpoint replaceQuotes (s : string) : string :=
  match s with
  | "" => ""
  | String c s' =>
      if Ascii.eqb c DQUOTE
      then String DQUOTE (String DQUOTE (replaceQuotes s'))
      else String c (replaceQuotes s')
  end.

(** The arrow function [escapeCSV] of [toCSV], on a string. *)
Definition escapeCSV (v : string) : string :=
  if testSpecial v
  then String DQUOTE (replaceQuotes v ++ String DQUOTE "")
  else v.

Definition header : list string :=
  [ "first_name"; "last_name"; "agency_institution"; "reason";
    "other_details"; "sign_in"; "sign_out"; "auto_signed_out" ].

(** The array pushed for one record, joined with commas.  On a string [x],
    [x || (the empty string)] is [x] itself. *)
Definition csvLine (r : VisitRecord) : string :=
  JS.join ","
    [ escapeCSV (firstName r); escapeCSV (lastName r); escapeCSV (agency r);
      escapeCSV (reason r); escapeCSV (otherDetails r);
      escapeCSV (signInAt r); escapeCSV (signOutAt r);
      escapeCSV (if autoSignedOut r then "YES" else "NO") ].

(** The loop [for (const r of records) lines.push(...)]. *)
Fixpoint pushLines (records : list VisitRecord) (lines : list string)
  : list string :=
  match records with
  | [] => lines
  | r :: rest => pushLines rest (lines ++ [csvLine r])%list
  end.

(** [toCSV(records)] *)
Definition toCSV (records : list VisitRecord) : string :=
  let lines := [JS.join "," header] in
  JS.join (String LF "") (pushLines records lines).

(** ** Page handlers *)

(** [showAlert(el, msg, type)]: the message and whether the box is shown
    with class [ok] or [err]. *)
Inductive Alert :=
| AlertOk (msg : string)
| AlertErr (msg : string).

(** The values of the sign-in form's fields when it is submitted. *)
Record SignInForm := mkSignInForm {
  firstNameValue : string;
  lastNameValue : string;
  agencyValue : string;
  reasonValue : string;
  otherDetailsValue : string
}.

(** [initHome()], [initSignIn()] and [initSignOut()] when the page loads:
    each runs the policy once (and registers its handlers). *)
Definition initHome (st : Storage) (now : Z) : Storage :=
  ensureAutoSignOut st now.
Definition initSignIn (st : Storage) (now : Z) : Storage :=
  ensureAutoSignOut st now.
Definition initSignOut (st : Storage) (now : Z) : Storage :=
  ensureAutoSignOut st now.

(** The record built by the sign-in handler.  [randomUUID] is the value
    returned by [crypto.randomUUID()], [None] where the browser has no such
    function; [tId] is the reading of [Date.now()] made for the id in that
    case, [tNow] the reading of [nowISO()]. *)
Definition newRecord (randomUUID : option string) (tId tNow : Z)
    (firstName lastName agency reasonVal otherDetails : string)
  : VisitRecord :=
  {| id := match randomUUID with
           | Some u => u
           | None => JS.numberToString tId
           end;
     firstName := firstName;
     lastName := lastName;
     agency := agency;
     reason := reasonVal;
     otherDetails := if String.eqb reasonVal "Other" then otherDetails else "";
     signInAt := nowISO tNow;
     signOutAt := "";
     autoSignedOut := false;
     nameKey := makeNameKey firstName lastName |}.

(** The [submit] handler of the sign-in form. *)
Definition signInSubmit (st : Storage) (randomUUID : option string)
    (tId tNow : Z) (form : SignInForm) : Storage * Alert :=
  let firstName := JS.trim (firstNameValue form) in
  let lastName := JS.trim (lastNameValue form) in
  let agency := JS.trim (agencyValue form) in
  let reasonVal := reasonValue form in
  let otherDetails := JS.trim (otherDetailsValue form) in
  if negb (JS.truthy firstName) || negb (JS.truthy lastName)
     || negb (JS.truthy agency)
  then (st, AlertErr
         "Please enter first name, last name, and agency/institution.")
  else if String.eqb reasonVal "Other" && negb (JS.truthy otherDetails)
  then (st, AlertErr "Please specify details for 'Other'.")
  else
    let records := loadLog st in
    let record :=
      newRecord randomUUID tId tNow firstName lastName agency reasonVal
                otherDetails in
    let records := (records ++ [record])%list in
    (saveLog records st,
     AlertOk "Signed in successfully. Returning to home screen...").

(** [records[index].signOutAt = nowISO(); records[index].autoSignedOut =
    false], for an [index] returned by [findActiveByNameKey], which lies
    within the array. *)
Definition closeAt (records : list VisitRecord) (index : nat) (tNow : Z)
  : list VisitRecord :=
  match records !! index with
  | Some r =>
      <[index := set_autoSignedOut false (set_signOutAt (nowISO tNow) r)]>
        records
  | None => records
  end.

(** The [submit] handler of the sign-out form: [tPolicy] is the clock
    reading of its [ensureAutoSignOut()], [tNow] that of [nowISO()]. *)
Definition signOutSubmit (st : Storage) (tPolicy tNow : Z) (fullName : string)
  : Storage * Alert :=
  let st := ensureAutoSignOut st tPolicy in
  let nameKey := normalizeName fullName in
  if negb (JS.truthy nameKey)
  then (st, AlertErr "Please type your first and last name.")
  else
    match findActiveByNameKey st nameKey with
    | None =>
        (st, AlertErr
          "Name not recognized. Please check spelling or ask staff for help.")
    | Some (records, index) =>
        (saveLog (closeAt records index tNow) st,
         AlertOk "Signed out successfully. Returning to home screen...")
    end.

(** The text searched by the records filter:
    [`${r.firstName} ${r.lastName} ${r.agency} ${r.reason}
    ${r.otherDetails}`.toLowerCase()]. *)
Definition hay (r : VisitRecord) : string :=
  JS.toLowerCase
    (firstName r ++ " " ++ lastName r ++ " " ++ agency r ++ " "
     ++ reason r ++ " " ++ otherDetails r).

(** [render()] of the records page, [search] being the value of the search
    box: the store after the policy and the records shown, in table
    order. *)
Definition render (st : Storage) (now : Z) (search : string)
  : Storage * list VisitRecord :=
  let st := ensureAutoSignOut st now in
  let q := JS.toLowerCase (JS.trim search) in
  let records := loadLog st in
  let ordered := rev records in
  let filtered :=
    if JS.truthy q
    then List.filter (fun r => JS.includes (hay r) q) ordered
    else ordered in
  (st, filtered).

(** [initRecords()]: the policy, then the first [render()]. *)
Definition initRecords (st : Storage) (t0 t1 : Z) (search : string)
  : Storage * list VisitRecord :=
  render (ensureAutoSignOut st t0) t1 search.

(** The click handler of the export button: the text handed to
    [downloadCSV]. *)
Definition exportClick (st : Storage) : string := toCSV (loadLog st).

(** The click handler of the clear button, [confirmed] being the answer to
    the confirmation dialog. *)
Definition clearClick (st : Storage) (confirmed : bool) (now : Z)
    (search : string) : Storage * option (list VisitRecord) :=
  if confirmed
  then let '(st', rows) := render (removeItem st) now search in
       (st', Some rows)
  else (st, None).

(** The events through which the application touches the store. *)
Inductive Event :=
| PageLoad (now : Z)
| SignInSubmitted (randomUUID : option string) (tId tNow : Z)
    (form : SignInForm)
| SignOutSubmitted (tPolicy tNow : Z) (fullName : string)
| Rendered (now : Z) (search : string)
| ExportClicked
| ClearClicked (confirmed : bool) (now : Z) (search : string).

Definition step (st : Storage) (e : Event) : Storage :=
  match e with
  | PageLoad now => ensureAutoSignOut st now
  | SignInSubmitted u tId tNow form => (signInSubmit st u tId tNow form).1
  | SignOutSubmitted tPolicy tNow fullName =>
      (signOutSubmit st tPolicy tNow fullName).1
  | Rendered now search => (render st now search).1
  | ExportClicked => st
  | ClearClicked confirmed now search =>
      (clearClick st confirmed now search).1
  end.

Definition run (st : Storage) (es : list Event) : Storage :=
  foldl step st es.

(** ** The specification's vocabulary *)

(** The value of the fixed duration, eight hours, in milliseconds. *)
Definition FIXED_DURATION : Z := 28800000.

(** Name Normalizer, after the words of its contract: every run of white
    space becomes one space.  [inRun] tells that the previous character was
    white space. *)
Fixpoint collapseRuns (inRun : bool) (s : string) : string :=
  match s with
  | "" => ""
  | String c s' =>
      if JS.isWhiteSpace c
      then if inRun then collapseRuns true s'
           else String " " (collapseRuns true s')
      else String c (collapseRuns false s')
  end.

(** Trim, lower-case, collapse. *)
Definition spec_normalize (text : string) : string :=
  collapseRuns false (JS.toLowerCase (JS.trim text)).

(** The same normal form computed in one pass over the untrimmed text: white
    space before the first word is dropped, and a run after a word is held
    back until the next word starts. *)
Inductive Scan := AtStart | InWord | InGap.

Definition afterSpace (q : Scan) : Scan :=
  match q with AtStart => AtStart | _ => InGap end.

Fixpoint squeeze (q : Scan) (s : string) : string :=
  match s with
  | "" => ""
  | String c s' =>
      if JS.isWhiteSpace c then squeeze (afterSpace q) s'
      else match q with
           | InGap => String " " (String c (squeeze InWord s'))
           | _ => String c (squeeze InWord s')
           end
  end.

Fixpoint scanState (q : Scan) (s : string) : Scan :=
  match s with
  | "" => q
  | String c s' =>
      scanState (if JS.isWhiteSpace c then afterSpace q else InWord) s'
  end.

(** A text made of white space only (the empty text included). *)
Fixpoint allWhiteSpace (s : string) : bool :=
  match s with
  | "" => true
  | String c s' => JS.isWhiteSpace c && allWhiteSpace s'
  end.

(** [q] occurs in [s]. *)
Definition substring (q s : string) : Prop :=
  exists pre post, s = pre ++ q ++ post.

(** [q] occurs in [s] when case is ignored. *)
Definition ci_substring (q s : string) : Prop :=
  substring (JS.toLowerCase q) (JS.toLowerCase s).

(** What the calendar functions must satisfy on the day [doe] of the
    400-year era that starts on 0000-03-01. *)
Definition eraCheck (doe : Z) : bool :=
  (let '(y, m, d) := JS.civilFromDays (doe - 719468) in
   (0 <=? y) && (y <=? 400) && (1 <=? m) && (m <=? 12) && (1 <=? d)
   && (d <=? 31) && (d <=? JS.daysInMonth y m)
   && (JS.daysFromCivil y m d =? doe - 719468))%Z.

(** [f] holds on the [count] integers from [base] on. *)
Fixpoint allFrom (count : positive) (f : Z -> bool) (base : Z) : bool :=
  match count with
  | xH => f base
  | xO p => allFrom p f base && allFrom p f (base + Z.pos p)%Z
  | xI p =>
      f base && allFrom p f (base + 1)%Z && allFrom p f (base + 1 + Z.pos p)%Z
  end.

(** CSV export, after the words of its contract.  A field needs quoting
    when it holds a comma, a double quote or a line feed; quoting wraps the
    field in double quotes and doubles the double quotes inside. *)
Definition needsQuoting (field : string) : Prop :=
  exists c, In c (list_ascii_of_string field) /\
            (c = COMMA \/ c = DQUOTE \/ c = LF).

Definition doubleQuotes (field : string) : string :=
  string_of_list_ascii
    (flat_map (fun c => if Ascii.eqb c DQUOTE then [DQUOTE; DQUOTE] else [c])
       (list_ascii_of_string field)).

Definition quoted (field : string) : string :=
  String DQUOTE "" ++ doubleQuotes field ++ String DQUOTE "".

Definition headerRow : string :=
  "first_name,last_name,agency_institution,reason,other_details,sign_in,sign_out,auto_signed_out".

(** The text a record is searched by: its first name, last name, agency,
    reason and other details, one space between them. *)
Definition searchText (r : VisitRecord) : string :=
  firstName r ++ " " ++ lastName r ++ " " ++ agency r ++ " " ++ reason r
  ++ " " ++ otherDetails r.

(** The one event that destroys records: a confirmed clear. *)
Definition isConfirmedClear (e : Event) : bool :=
  match e with
  | ClearClicked true _ _ => true
  | _ => false
  end.

(** The failures of the ledger.  The handlers report a failure through an
    [err] alert; the alert of an unmatched sign-out is a [NotFoundError],
    every other one reports input that failed validation. *)
Inductive Failure := ValidationError | NotFoundError.

Definition failureOf (a : Alert) : option Failure :=
  match a with
  | AlertOk _ => None
  | AlertErr msg =>
      if String.eqb msg
           "Name not recognized. Please check spelling or ask staff for help."
      then Some NotFoundError
      else Some ValidationError
  end.

(** A record with a key that is not empty. *)
Definition keyed (r : VisitRecord) : Prop := nameKey r <> "".

(** [r] is an open record with key [key]. *)
Definition openMatch (key : string) (r : VisitRecord) : Prop :=
  signOutAt r = "" /\ nameKey r = key.

(** Auto-Close Policy, after the words of its contract.  The deadline of a
    record is its sign-in instant plus the fixed duration; a record is due
    at [now] when it is open and [now] has reached its deadline. *)
Definition deadline (r : VisitRecord) : option Z :=
  match JS.getTime (signInAt r) with
  | Some signInMs => Some (signInMs + FIXED_DURATION)%Z
  | None => None
  end.

Definition due (now : Z) (r : VisitRecord) : bool :=
  isOpen r &&
  match deadline r with
  | Some d => (d <=? now)%Z
  | None => false
  end.

(** What the policy makes of one record. *)
Definition applyAutoClose1 (now : Z) (r : VisitRecord) : VisitRecord :=
  match deadline r with
  | Some d =>
      if due now r
      then {| id := id r; firstName := firstName r; lastName := lastName r;
              agency := agency r; reason := reason r;
              otherDetails := otherDetails r; signInAt := signInAt r;
              signOutAt := JS.toISOString d; autoSignedOut := true;
              nameKey := nameKey r |}
      else r
  | None => r
  end.

(** [applyAutoClose(records, now) -> (records', changed)] *)
Definition applyAutoClose (records : list VisitRecord) (now : Z)
  : list VisitRecord * bool :=
  (map (applyAutoClose1 now) records, existsb (due now) records).

(** ** Sample data

    The scenario of the specification: Jane Doe signs in for Acme at [T0],
    and again, typed differently, for another company one minute later. *)

Definition T0 : Z := 1700000000000.
Definition T1 : Z := 1700000060000.

Definition T2 : Z := 1700000120000.

Definition emptyStorage : Storage := {| item := None; writes := [] |}.

Definition janeForm : SignInForm :=
  {| firstNameValue := " Jane"; lastNameValue := "Doe ";
     agencyValue := "Acme"; reasonValue := "Meeting";
     otherDetailsValue := "" |}.

Definition janeForm' : SignInForm :=
  {| firstNameValue := "jane  "; lastNameValue := "  doe";
     agencyValue := "Other Co"; reasonValue := "Delivery";
     otherDetailsValue := "left at the gate" |}.

Definition janeAtT0 : VisitRecord :=
  {| id := "1700000000000"; firstName := "Jane"; lastName := "Doe";
     agency := "Acme"; reason := "Meeting"; otherDetails := "";
     signInAt := "2023-11-14T22:13:20.000Z"; signOutAt := "";
     autoSignedOut := false; nameKey := "jane doe" |}.

Definition janeAtT1 : VisitRecord :=
  {| id := "1700000060000"; firstName := "jane"; lastName := "doe";
     agency := "Other Co"; reason := "Delivery"; otherDetails := "";
     signInAt := "2023-11-14T22:14:20.000Z"; signOutAt := "";
     autoSignedOut := false; nameKey := "jane doe" |}.

(** The store after the first sign-in, and after both. *)
Definition oneVisit : Storage :=
  (signInSubmit emptyStorage None T0 T0 janeForm).1.

Definition twoVisits : Storage :=
  (signInSubmit oneVisit None T1 T1 janeForm').1.

(** The store after Jane Doe's sign-out at [T2], and her closed visit. *)
Definition afterSignOut : Storage :=
  (signOutSubmit twoVisits T2 T2 "Jane Doe").1.

Definition janeClosed : VisitRecord :=
  set_autoSignedOut false (set_signOutAt "2023-11-14T22:15:20.000Z" janeAtT1).

(** ** Reading the export back

    A reader of comma separated values in the usual format: fields are
    separated by commas and rows by line feeds; a field that opens with a
    double quote runs to its closing double quote, commas and line feeds
    included, and two double quotes inside it stand for one.  [field] and
    [row] hold what has been read of the current field and row. *)
Inductive CsvState := FieldStart | Unquoted | Quoted | QuoteSeen.

Fixpoint csvRead (q : CsvState) (field : string) (row : list string)
    (s : string) : list (list string) :=
  match s with
  | "" => [(row ++ [field])%list]
  | String c s' =>
      match q with
      | Quoted =>
          if Ascii.eqb c DQUOTE then csvRead QuoteSeen field row s'
          else csvRead Quoted (field ++ String c "") row s'
      | _ =>
          if Ascii.eqb c DQUOTE then
            match q with
            | FieldStart => csvRead Quoted field row s'
            | QuoteSeen => csvRead Quoted (field ++ String DQUOTE "") row s'
            | _ => csvRead Unquoted (field ++ String c "") row s'
            end
          else if Ascii.eqb c COMMA then
            csvRead FieldStart "" (row ++ [field])%list s'
          else if Ascii.eqb c LF then
            (row ++ [field])%list :: csvRead FieldStart "" [] s'
          else csvRead Unquoted (field ++ String c "") row s'
      end
  end.

Definition readCSV (s : string) : list (list string) :=
  csvRead FieldStart "" [] s.

(** The eight values a record is exported with. *)
Definition fieldsOf (r : VisitRecord) : list string :=
  [ firstName r; lastName r; agency r; reason r; otherDetails r;
    signInAt r; signOutAt r; if autoSignedOut r then "YES" else "NO" ].

(** What may follow a field: the end of the text, a comma or a line
    feed. *)
Definition delimited (rest : string) : Prop :=
  rest = "" \/ exists r, rest = String COMMA r \/ rest = String LF r.

(** ** Invariants of the stored records *)

(** [r'] is the visit [r], possibly closed since: every field but
    [signOutAt] and [autoSignedOut] is the same. *)
Definition sameVisit (r r' : VisitRecord) : Prop :=
  id r' = id r /\ firstName r' = firstName r /\ lastName r' = lastName r /\
  agency r' = agency r /\ reason r' = reason r /\
  otherDetails r' = otherDetails r /\ signInAt r' = signInAt r /\
  nameKey r' = nameKey r.

(** A record as the sign-in form lets one through: trimmed names and
    agency that are not empty, details exactly under the reason Other, and
    the key of the names. *)
Definition validRecord (r : VisitRecord) : Prop :=
  firstName r <> "" /\ JS.trim (firstName r) = firstName r /\
  lastName r <> "" /\ JS.trim (lastName r) = lastName r /\
  agency r <> "" /\ JS.trim (agency r) = agency r /\
  (reason r = "Other" ->
   otherDetails r <> "" /\ JS.trim (otherDetails r) = otherDetails r) /\
  (reason r <> "Other" -> otherDetails r = "") /\
  nameKey r = makeNameKey (firstName r) (lastName r) /\
  nameKey r <> "".


(** ** Ids and file names *)

(** The number a string of decimal digits stands for, and the integer a
    string written by [String(n)] stands for. *)
Fixpoint valueOf (acc : Z) (s : string) : Z :=
  match s with
  | "" => acc
  | String c s' => valueOf (acc * 10 + (Z.of_N (N_of_ascii c) - 48))%Z s'
  end.

Definition readNumber (s : string) : Z :=
  match s with
  | String "-" s' => (- valueOf 0 s')%Z
  | _ => valueOf 0 s
  end.

(** [s.slice(0, n)] *)
Fixpoint sliceTo (n : nat) (s : string) : string :=
  match n, s with
  | S n', String c s' => String c (sliceTo n' s')
  | _, _ => ""
  end.

(** The file name the export button hands to [downloadCSV], [now] being
    the reading of the clock:
    [`AAMU_RED_GuestLog_${new Date().toISOString().slice(0,10)}.csv`]. *)
Definition exportFileName (now : Z) : string :=
  "AAMU_RED_GuestLog_" ++ sliceTo 10 (JS.toISOString now) ++ ".csv".

(** The date part of an ISO timestamp. *)
Definition dateString (y m d : Z) : string :=
  (if ((0 <=? y) && (y <=? 9999))%Z then JS.padDigits 4 y
   else (if (y <? 0)%Z then "-" else "+") ++ JS.padDigits 6 (Z.abs y))
  ++ "-" ++ JS.padDigits 2 m ++ "-" ++ JS.padDigits 2 d.


(** ** Strings *)

Section Strings.

Implicit Types (s t q : string) (c : ascii).

Lemma app_empty_r s : s ++ "" = s.
Proof. induction s; simpl; congruence. Qed.

Lemma app_assoc' s t q : (s ++ t) ++ q = s ++ t ++ q.
Proof. induction s; simpl; congruence. Qed.

Lemma app_nonempty s c t : s ++ String c t <> "".
Proof. destruct s; discriminate. Qed.

Lemma truthy_true s : JS.truthy s = true <-> s <> "".
Proof. destruct s; simpl; split; congruence. Qed.

Lemma truthy_false s : JS.truthy s = false <-> s = "".
Proof. destruct s; simpl; split; congruence. Qed.

Lemma toLowerChar_not_space c :
  JS.isWhiteSpace (JS.toLowerChar c) = JS.isWhiteSpace c.
Proof.
  destruct c as [[] [] [] [] [] [] [] []]; reflexivity.
Qed.

Lemma toLowerCase_app s t :
  JS.toLowerCase (s ++ t) = JS.toLowerCase s ++ JS.toLowerCase t.
Proof. induction s; simpl; congruence. Qed.

Lemma toLowerCase_idem s : JS.toLowerCase (JS.toLowerCase s) = JS.toLowerCase s.
Proof.
  induction s as [|c s IH]; simpl; [reflexivity|].
  rewrite IH. f_equal.
  destruct c as [[] [] [] [] [] [] [] []]; reflexivity.
Qed.

Lemma trimStart_allWhiteSpace s : allWhiteSpace s = true -> JS.trimStart s = "".
Proof.
  induction s as [|c s IH]; simpl; [reflexivity|].
  destruct (JS.isWhiteSpace c); simpl; [exact IH | discriminate].
Qed.

Lemma trim_allWhiteSpace s : allWhiteSpace s = true -> JS.trim s = "".
Proof. intros H. unfold JS.trim. now rewrite trimStart_allWhiteSpace. Qed.

Lemma splitWs_cons b s : exists t ts, JS.splitWs b s = t :: ts.
Proof.
  revert b; induction s as [|c s IH]; intros b; simpl; [eauto|].
  destruct (JS.isWhiteSpace c).
  - destruct b; [apply IH | eauto].
  - destruct (IH false) as (t & ts & ->). eauto.
Qed.

Lemma join_cons sep p q ps :
  JS.join sep (p :: q :: ps) = p ++ sep ++ JS.join sep (q :: ps).
Proof. reflexivity. Qed.

Lemma join_String sep c t ts :
  JS.join sep (String c t :: ts) = String c (JS.join sep (t :: ts)).
Proof. destruct ts; reflexivity. Qed.

(** Splitting at the runs of white space and joining with one space is
    collapsing the runs. *)
Lemma join_splitWs b s : JS.join " " (JS.splitWs b s) = collapseRuns b s.
Proof.
  revert b; induction s as [|c s IH]; intros b; simpl; [reflexivity|].
  destruct (JS.isWhiteSpace c).
  - destruct b; [apply IH|].
    destruct (splitWs_cons true s) as (t & ts & E).
    rewrite E, join_cons, <- E, IH. reflexivity.
  - destruct (splitWs_cons false s) as (t & ts & E).
    rewrite E, join_String, <- E, IH. reflexivity.
Qed.

Lemma trimStart_cases s :
  allWhiteSpace s = true /\ JS.trimStart s = ""
  \/ allWhiteSpace s = false /\
     exists c t, JS.trimStart s = String c t /\ JS.isWhiteSpace c = false.
Proof.
  induction s as [|c s IH]; simpl; [now left|].
  destruct (JS.isWhiteSpace c) eqn:E; simpl; [exact IH|].
  right. split; [reflexivity|]. eauto.
Qed.

Lemma trimEnd_String c t :
  JS.isWhiteSpace c = false -> exists t', JS.trimEnd (String c t) = String c t'.
Proof.
  intros E. simpl. rewrite E. destruct (JS.trimEnd t); eauto.
Qed.

Lemma trim_not_allWhiteSpace s :
  allWhiteSpace s = false ->
  exists c t, JS.trim s = String c t /\ JS.isWhiteSpace c = false.
Proof.
  intros H. unfold JS.trim.
  destruct (trimStart_cases s) as [[H' _]|(_ & c & t & -> & E)]; [congruence|].
  destruct (trimEnd_String c t E) as [t' ->]. eauto.
Qed.

(** The key of a text that starts with a character other than white space
    starts with that character, lower-cased. *)
Lemma normalizeName_String s c t :
  JS.trim s = String c t -> JS.isWhiteSpace c = false ->
  exists k, normalizeName s = String (JS.toLowerChar c) k.
Proof.
  intros E W. unfold normalizeName, JS.split_ws. rewrite E. simpl.
  rewrite toLowerChar_not_space, W.
  destruct (splitWs_cons false (JS.toLowerCase t)) as (p & ps & ->).
  rewrite join_String. eauto.
Qed.

Lemma normalizeName_empty_iff s :
  normalizeName s = "" <-> allWhiteSpace s = true.
Proof.
  split.
  - intros H. destruct (allWhiteSpace s) eqn:A; [reflexivity|].
    destruct (trim_not_allWhiteSpace s A) as (c & t & E & W).
    destruct (normalizeName_String s c t E W) as [k Hk]. congruence.
  - intros H. unfold normalizeName. now rewrite trim_allWhiteSpace.
Qed.

Lemma collapseRuns_toLowerCase b s :
  collapseRuns b (JS.toLowerCase s) = JS.toLowerCase (collapseRuns b s).
Proof.
  revert b; induction s as [|c s IH]; intros b; simpl; [reflexivity|].
  rewrite toLowerChar_not_space.
  destruct (JS.isWhiteSpace c); [destruct b|]; simpl; now rewrite IH.
Qed.

Lemma trimEnd_empty_iff s : JS.trimEnd s = "" <-> allWhiteSpace s = true.
Proof.
  induction s as [|c s IH]; simpl; [tauto|].
  destruct (JS.trimEnd s) eqn:E.
  - destruct (JS.isWhiteSpace c); simpl.
    + split; [intros _; now apply IH | reflexivity].
    + split; discriminate.
  - split; [discriminate|]. intros H. apply andb_prop in H as [_ H].
    apply IH in H. discriminate.
Qed.

Lemma trimEnd_cons c s :
  JS.trimEnd (String c s) =
  if JS.isWhiteSpace c && allWhiteSpace s then "" else String c (JS.trimEnd s).
Proof.
  simpl. destruct (allWhiteSpace s) eqn:A.
  - apply trimEnd_empty_iff in A. rewrite A, andb_true_r.
    now destruct (JS.isWhiteSpace c).
  - rewrite andb_false_r. destruct (JS.trimEnd s) eqn:E; [|reflexivity].
    apply trimEnd_empty_iff in E. congruence.
Qed.

Lemma squeeze_allWhiteSpace k s :
  allWhiteSpace s = true -> squeeze k s = "".
Proof.
  revert k; induction s as [|c s IH]; intros k; simpl; [reflexivity|].
  destruct (JS.isWhiteSpace c); simpl; [apply IH | discriminate].
Qed.

Lemma afterSpace_idem k : afterSpace (afterSpace k) = afterSpace k.
Proof. now destruct k. Qed.

Lemma scanState_allWhiteSpace k s :
  allWhiteSpace s = true -> afterSpace (scanState k s) = afterSpace k.
Proof.
  revert k; induction s as [|c s IH]; intros k; simpl; [reflexivity|].
  destruct (JS.isWhiteSpace c); simpl; [|discriminate].
  intros H. now rewrite IH, afterSpace_idem.
Qed.

Lemma squeeze_trimEnd k s : squeeze k (JS.trimEnd s) = squeeze k s.
Proof.
  revert k; induction s as [|c s IH]; intros k; [reflexivity|].
  rewrite trimEnd_cons.
  destruct (JS.isWhiteSpace c && allWhiteSpace s) eqn:E.
  - apply andb_prop in E as [E1 E2]. simpl. rewrite E1.
    now rewrite squeeze_allWhiteSpace.
  - simpl. destruct (JS.isWhiteSpace c); [|destruct k]; now rewrite IH.
Qed.

Lemma scanState_trimEnd k s :
  afterSpace (scanState k (JS.trimEnd s)) = afterSpace (scanState k s).
Proof.
  revert k; induction s as [|c s IH]; intros k; [reflexivity|].
  rewrite trimEnd_cons.
  destruct (JS.isWhiteSpace c && allWhiteSpace s) eqn:E.
  - apply andb_prop in E as [E1 E2]. simpl. rewrite E1.
    now rewrite scanState_allWhiteSpace, afterSpace_idem.
  - simpl. apply IH.
Qed.

Lemma squeeze_trimStart k s :
  k <> InWord -> squeeze k (JS.trimStart s) = squeeze k s.
Proof.
  intros Hk. induction s as [|c s IH]; simpl; [reflexivity|].
  destruct (JS.isWhiteSpace c) eqn:E; simpl; [|now rewrite E].
  rewrite IH. now destruct k.
Qed.

Lemma scanState_trimStart s :
  scanState AtStart (JS.trimStart s) = scanState AtStart s.
Proof.
  induction s as [|c s IH]; simpl; [reflexivity|].
  destruct (JS.isWhiteSpace c) eqn:E; simpl; [exact IH | now rewrite E].
Qed.

Lemma squeeze_app k s t :
  squeeze k (s ++ t) = squeeze k s ++ squeeze (scanState k s) t.
Proof.
  revert k; induction s as [|c s IH]; intros k; simpl; [reflexivity|].
  destruct (JS.isWhiteSpace c); [|destruct k]; simpl; now rewrite IH.
Qed.

Lemma scanState_app k s t :
  scanState k (s ++ t) = scanState (scanState k s) t.
Proof.
  revert k; induction s as [|c s IH]; intros k; simpl; [reflexivity|].
  apply IH.
Qed.

(** Collapsing the runs of a text trimmed at its end, against the
    one-pass normal form. *)
Lemma collapseRuns_trimEnd s :
  collapseRuns false (JS.trimEnd s) = squeeze InWord s /\
  (allWhiteSpace s = false ->
   String " " (collapseRuns true (JS.trimEnd s)) = squeeze InGap s).
Proof.
  induction s as [|c s [IH1 IH2]]; [split; [reflexivity | discriminate]|].
  rewrite trimEnd_cons. simpl allWhiteSpace.
  destruct (JS.isWhiteSpace c) eqn:E; simpl andb.
  - destruct (allWhiteSpace s) eqn:A; simpl; rewrite E; simpl.
    + split; [|discriminate]. now rewrite squeeze_allWhiteSpace.
    + split; [|intros _]; now rewrite <- IH2.
  - simpl. rewrite E. split; [|intros _]; now rewrite IH1.
Qed.

(** The collapsed trimmed text is the one-pass normal form of the text. *)
Lemma collapseRuns_trim s : collapseRuns false (JS.trim s) = squeeze AtStart s.
Proof.
  unfold JS.trim. rewrite <- (squeeze_trimStart AtStart s) by discriminate.
  destruct (trimStart_cases s) as [[_ ->]|(_ & c & t & -> & E)];
    [reflexivity|].
  rewrite (proj1 (collapseRuns_trimEnd (String c t))). simpl. now rewrite E.
Qed.

Lemma normalizeName_squeeze s :
  normalizeName s = JS.toLowerCase (squeeze AtStart s).
Proof.
  unfold normalizeName, JS.split_ws.
  now rewrite join_splitWs, collapseRuns_toLowerCase, collapseRuns_trim.
Qed.

Lemma squeeze_trim k s : k <> InWord -> squeeze k (JS.trim s) = squeeze k s.
Proof.
  intros Hk. unfold JS.trim. now rewrite squeeze_trimEnd, squeeze_trimStart.
Qed.

(** Trimming the first and the last name before joining them does not
    change the key. *)
Lemma makeNameKey_trim first last :
  makeNameKey (JS.trim first) (JS.trim last) = makeNameKey first last.
Proof.
  unfold makeNameKey. rewrite !normalizeName_squeeze. f_equal.
  rewrite !squeeze_app. rewrite squeeze_trim by discriminate. f_equal.
  simpl. set (q1 := afterSpace (scanState AtStart (JS.trim first))).
  set (q2 := afterSpace (scanState AtStart first)).
  assert (Q : q1 = q2).
  { unfold q1, q2, JS.trim.
    now rewrite scanState_trimEnd, scanState_trimStart. }
  rewrite Q. apply squeeze_trim. unfold q2.
  now destruct (scanState AtStart first).
Qed.

Lemma allWhiteSpace_app s t :
  allWhiteSpace (s ++ t) = allWhiteSpace s && allWhiteSpace t.
Proof.
  induction s as [|c s IH]; simpl; [reflexivity|].
  now rewrite IH, andb_assoc.
Qed.

Lemma trim_nonempty_allWhiteSpace s :
  JS.trim s <> "" -> allWhiteSpace (JS.trim s) = false.
Proof.
  intros H. destruct (allWhiteSpace s) eqn:A.
  - now rewrite trim_allWhiteSpace in H.
  - destruct (trim_not_allWhiteSpace s A) as (c & t & -> & E).
    simpl. now rewrite E.
Qed.

(** The key made of a first name that is not empty after trimming is not
    empty. *)
Lemma makeNameKey_nonempty first last :
  JS.trim first <> "" -> makeNameKey (JS.trim first) last <> "".
Proof.
  intros H. unfold makeNameKey. rewrite normalizeName_empty_iff.
  rewrite allWhiteSpace_app, trim_nonempty_allWhiteSpace by exact H.
  discriminate.
Qed.

(** C5. [normalizeName] is the normalizer of the specification: the text
    trimmed, lower-cased, and each run of white space collapsed to one
    space; the key of a first and a last name is the normalized
    [first + " " + last]; and the key is empty exactly on the texts made of
    white space only, the empty text among them.  Being a function of the
    text alone, defined on every text, it is pure and total. *)
Theorem normalizeName_spec (text : string) :
  normalizeName text = spec_normalize text /\
  (forall first last,
      makeNameKey first last = normalizeName (first ++ " " ++ last)) /\
  normalizeName "" = "" /\
  (normalizeName text = "" <-> allWhiteSpace text = true).
Proof.
  split; [|split; [|split]].
  - unfold normalizeName, spec_normalize, JS.split_ws. apply join_splitWs.
  - reflexivity.
  - reflexivity.
  - apply normalizeName_empty_iff.
Qed.

End Strings.

(** ** Dates *)

Section Dates.

Local Open Scope Z_scope.

Lemma digitValue_digitChar d :
  0 <= d <= 9 -> JS.digitValue (JS.digitChar d) = Some d.
Proof.
  intros H.
  assert (C : d = 0 \/ d = 1 \/ d = 2 \/ d = 3 \/ d = 4 \/ d = 5 \/ d = 6
              \/ d = 7 \/ d = 8 \/ d = 9) by lia.
  repeat (destruct C as [-> | C]; [reflexivity|]). now subst d.
Qed.

(** The leading digit of a zero-padded number. *)
Lemma padDigits_head w n :
  JS.padDigits (S w) n
  = String (JS.digitChar (n / 10 ^ Z.of_nat w mod 10)) (JS.padDigits w n).
Proof.
  revert n. induction w as [|w IH]; intros n.
  - simpl. now rewrite Z.div_1_r.
  - change (JS.padDigits (S (S w)) n)
      with (JS.padDigits (S w) (n / 10)
            ++ String (JS.digitChar (n mod 10)) "").
    rewrite IH. simpl String.append.
    rewrite Z.div_div by lia.
    replace (10 * 10 ^ Z.of_nat w) with (10 ^ Z.of_nat (S w))
      by (rewrite Nat2Z.inj_succ, Z.pow_succ_r; lia).
    reflexivity.
Qed.

Lemma readDigits_padDigits w n acc rest :
  0 <= n ->
  JS.readDigits w acc (JS.padDigits w n ++ rest)
  = Some (acc * 10 ^ Z.of_nat w + n mod 10 ^ Z.of_nat w, rest).
Proof.
  intros Hn. revert acc. induction w as [|w IH]; intros acc.
  - simpl. rewrite Z.mod_1_r. do 2 f_equal. lia.
  - rewrite padDigits_head. simpl String.append. cbn [JS.readDigits].
    rewrite digitValue_digitChar
      by (pose proof (Z.mod_pos_bound (n / 10 ^ Z.of_nat w) 10); lia).
    rewrite IH. do 2 f_equal.
    rewrite Nat2Z.inj_succ, Z.pow_succ_r by lia.
    set (p := 10 ^ Z.of_nat w).
    assert (Hp : 0 < p) by (apply Z.pow_pos_nonneg; lia).
    rewrite (Z.mul_comm 10 p). rewrite Z.rem_mul_r by lia. lia.
Qed.

Lemma allFrom_spec count f base :
  allFrom count f base = true ->
  forall x, base <= x < base + Z.pos count -> f x = true.
Proof.
  revert base. induction count as [p IH|p IH|]; intros base; simpl.
  - rewrite !andb_true_iff. intros [[H0 H1] H2] x Hx.
    destruct (Z.eq_dec x base) as [->|Hne]; [exact H0|].
    destruct (Z_lt_le_dec x (base + 1 + Z.pos p)).
    + apply (IH _ H1). lia.
    + apply (IH _ H2). lia.
  - rewrite andb_true_iff. intros [H1 H2] x Hx.
    destruct (Z_lt_le_dec x (base + Z.pos p)).
    + apply (IH _ H1). lia.
    + apply (IH _ H2). lia.
  - intros H x Hx. now replace x with base by lia.
Qed.

Lemma eraCheck_all : allFrom 146097 eraCheck 0 = true.
Proof. vm_compute. reflexivity. Qed.

Lemma eraCheck_true doe : 0 <= doe < 146097 -> eraCheck doe = true.
Proof. intros H. apply (allFrom_spec _ _ _ eraCheck_all). lia. Qed.

(** The calendar repeats every 146097 days, 400 years later. *)
Lemma civilFromDays_era z :
  JS.civilFromDays z =
  let '(y, m, d) :=
    JS.civilFromDays ((z + 719468) mod 146097 - 719468) in
  (y + 400 * ((z + 719468) / 146097), m, d).
Proof.
  pose proof (Z.mod_pos_bound (z + 719468) 146097 eq_refl) as B.
  pose proof (Z.div_mod (z + 719468) 146097) as E.
  unfold JS.civilFromDays. cbv zeta.
  set (q := (z + 719468) / 146097) in *.
  set (doe := (z + 719468) mod 146097) in *.
  replace (doe - 719468 + 719468) with doe by lia.
  rewrite (Z.div_small doe 146097) by lia.
  replace (z + 719468 - q * 146097) with doe by lia.
  replace (doe - 0 * 146097) with doe by lia.
  f_equal. f_equal. lia.
Qed.

Lemma daysFromCivil_era y m d k :
  JS.daysFromCivil (y + 400 * k) m d = JS.daysFromCivil y m d + 146097 * k.
Proof.
  unfold JS.daysFromCivil. cbv zeta.
  assert (E : forall a, (a + 400 * k) / 400 = a / 400 + k).
  { intros a. rewrite (Z.mul_comm 400 k). apply Z.div_add. lia. }
  destruct (m <=? 2).
  - replace (y + 400 * k - 1) with (y - 1 + 400 * k) by lia.
    rewrite E.
    replace (y - 1 + 400 * k - ((y - 1) / 400 + k) * 400)
      with (y - 1 - (y - 1) / 400 * 400) by ring.
    ring.
  - rewrite E.
    replace (y + 400 * k - (y / 400 + k) * 400)
      with (y - y / 400 * 400) by ring.
    ring.
Qed.

Lemma daysInMonth_era y m k :
  JS.daysInMonth (y + 400 * k) m = JS.daysInMonth y m.
Proof.
  unfold JS.daysInMonth. destruct (m =? 12).
  - replace (y + 400 * k + 1) with (y + 1 + 400 * k) by lia.
    rewrite !daysFromCivil_era. lia.
  - rewrite !daysFromCivil_era. lia.
Qed.

(** The date of a day number is a valid date, and it is the date of that
    day only. *)
Lemma civilFromDays_spec z y m d :
  JS.civilFromDays z = (y, m, d) ->
  1 <= m <= 12 /\ 1 <= d <= 31 /\ d <= JS.daysInMonth y m /\
  JS.daysFromCivil y m d = z /\
  400 * ((z + 719468) / 146097) <= y <= 400 * ((z + 719468) / 146097) + 400.
Proof.
  rewrite civilFromDays_era.
  pose proof (Z.mod_pos_bound (z + 719468) 146097 eq_refl) as B.
  pose proof (Z.div_mod (z + 719468) 146097) as E.
  pose proof (eraCheck_true _ B) as C. unfold eraCheck in C.
  destruct (JS.civilFromDays ((z + 719468) mod 146097 - 719468))
    as [[y0 m0] d0].
  intros [= <- <- <-].
  rewrite !andb_true_iff in C.
  destruct C as [[[[[[[C1 C2] C3] C4] C5] C6] C7] C8].
  rewrite daysInMonth_era, daysFromCivil_era. lia.
Qed.

Lemma readYear_digit d s :
  0 <= d <= 9 ->
  JS.readYear (String (JS.digitChar d) s)
  = JS.readDigits 4 0 (String (JS.digitChar d) s).
Proof.
  intros H.
  assert (C : d = 0 \/ d = 1 \/ d = 2 \/ d = 3 \/ d = 4 \/ d = 5 \/ d = 6
              \/ d = 7 \/ d = 8 \/ d = 9) by lia.
  repeat (destruct C as [-> | C]; [reflexivity|]). now subst d.
Qed.

Lemma readYear_minus s :
  JS.readYear (String "-" s) =
  match JS.readDigits 6 0 s with
  | Some (y, rest) => if y =? 0 then None else Some (- y, rest)
  | None => None
  end.
Proof. reflexivity. Qed.

Lemma readYear_plus s : JS.readYear (String "+" s) = JS.readDigits 6 0 s.
Proof. reflexivity. Qed.

(** The year, as [toISOString] writes it, is read back. *)
Lemma readYear_year y rest :
  -999999 <= y <= 999999 ->
  JS.readYear
    ((if (0 <=? y) && (y <=? 9999) then JS.padDigits 4 y
      else (if y <? 0 then "-" else "+") ++ JS.padDigits 6 (Z.abs y))
     ++ rest)
  = Some (y, rest).
Proof.
  intros Hy.
  destruct ((0 <=? y) && (y <=? 9999)) eqn:R.
  - apply andb_prop in R as [R1 R2].
    apply Z.leb_le in R1. apply Z.leb_le in R2.
    rewrite padDigits_head.
    set (c := JS.digitChar (y / 10 ^ Z.of_nat 3 mod 10)).
    change (String c (JS.padDigits 3 y) ++ rest)
      with (String c (JS.padDigits 3 y ++ rest)).
    unfold c. rewrite readYear_digit
      by (pose proof (Z.mod_pos_bound (y / 10 ^ Z.of_nat 3) 10); lia).
    fold c.
    change (String c (JS.padDigits 3 y ++ rest))
      with (String c (JS.padDigits 3 y) ++ rest).
    unfold c. rewrite <- padDigits_head.
    rewrite readDigits_padDigits by lia.
    rewrite Z.mod_small by (simpl; lia). reflexivity.
  - destruct (y <? 0) eqn:N.
    + apply Z.ltb_lt in N.
      change (("-" ++ JS.padDigits 6 (Z.abs y)) ++ rest)
        with (String "-" (JS.padDigits 6 (Z.abs y) ++ rest)).
      rewrite readYear_minus, readDigits_padDigits by lia.
      rewrite Z.mod_small by (simpl; lia).
      destruct (0 * 10 ^ Z.of_nat 6 + Z.abs y =? 0) eqn:Z0;
        [apply Z.eqb_eq in Z0; lia|].
      do 2 f_equal. lia.
    + apply Z.ltb_ge in N.
      change (("+" ++ JS.padDigits 6 (Z.abs y)) ++ rest)
        with (String "+" (JS.padDigits 6 (Z.abs y) ++ rest)).
      rewrite readYear_plus, readDigits_padDigits by lia.
      rewrite Z.mod_small by (simpl; lia). do 2 f_equal. lia.
Qed.

Local Arguments JS.padDigits : simpl never.
Local Arguments JS.readDigits : simpl never.

Lemma readChar_app c rest : JS.readChar c (String c "" ++ rest) = Some rest.
Proof. simpl. now rewrite Ascii.eqb_refl. Qed.

Lemma if_true_Some {A} (b : bool) (x : A) :
  b = true -> (if b then Some x else None) = Some x.
Proof. now intros ->. Qed.

Ltac bind_step := cbn [mbind option_bind]; cbv beta iota.

(** A time value written by [toISOString] is read back by [getTime]. *)
Lemma getTime_toISOString t :
  JS.isTimeValue t -> JS.getTime (JS.toISOString t) = Some t.
Proof.
  unfold JS.isTimeValue, JS.maxTime. intros Ht.
  assert (E : t = JS.msPerDay * (t / JS.msPerDay) + t mod JS.msPerDay)
    by (apply Z.div_mod; discriminate).
  pose proof (Z.mod_pos_bound t JS.msPerDay eq_refl) as B.
  unfold JS.toISOString.
  destruct (JS.civilFromDays (t / JS.msPerDay)) as [[y m] d] eqn:C.
  apply civilFromDays_spec in C as (Hm & Hd & Hdm & Hdays & Hy).
  unfold JS.msPerDay in *.
  set (days := t / 86400000) in *. set (ms := t mod 86400000) in *.
  assert (Hyr : -999999 <= y <= 999999).
  { clearbody days ms. assert (-100000000 <= days <= 100000000) by lia.
    assert (-700 <= (days + 719468) / 146097 <= 700)
      by (Z.div_mod_to_equations; lia).
    lia. }
  unfold JS.getTime.
  rewrite readYear_year by exact Hyr. bind_step.
  rewrite readChar_app. bind_step.
  rewrite readDigits_padDigits by lia. bind_step.
  rewrite readChar_app. bind_step.
  rewrite readDigits_padDigits by lia. bind_step.
  rewrite readChar_app. bind_step.
  rewrite readDigits_padDigits by (Z.div_mod_to_equations; lia). bind_step.
  rewrite readChar_app. bind_step.
  rewrite readDigits_padDigits by (Z.div_mod_to_equations; lia). bind_step.
  rewrite readChar_app. bind_step.
  rewrite readDigits_padDigits by (Z.div_mod_to_equations; lia). bind_step.
  rewrite readChar_app. bind_step.
  rewrite readDigits_padDigits by (Z.div_mod_to_equations; lia). bind_step.
  change (JS.readChar "Z" "Z") with (Some ""). bind_step.
  change (10 ^ Z.of_nat 2) with 100. change (10 ^ Z.of_nat 3) with 1000.
  unfold JS.msPerDay, JS.maxTime.
  replace (0 * 100 + m mod 100) with m by (rewrite Z.mod_small; lia).
  replace (0 * 100 + d mod 100) with d by (rewrite Z.mod_small; lia).
  set (hh := 0 * 100 + (ms / 3600000) mod 100).
  set (mm := 0 * 100 + ((ms / 60000) mod 60) mod 100).
  set (ss := 0 * 100 + ((ms / 1000) mod 60) mod 100).
  set (mil := 0 * 1000 + (ms mod 1000) mod 1000).
  assert (Hhh : 0 <= hh <= 23)
    by (unfold hh; clearbody ms; Z.div_mod_to_equations; lia).
  assert (Hmm : 0 <= mm <= 59)
    by (unfold mm; clearbody ms; Z.div_mod_to_equations; lia).
  assert (Hss : 0 <= ss <= 59)
    by (unfold ss; clearbody ms; Z.div_mod_to_equations; lia).
  assert (Hsum : hh * 3600000 + mm * 60000 + ss * 1000 + mil = ms)
    by (unfold hh, mm, ss, mil; clearbody ms; Z.div_mod_to_equations; lia).
  rewrite Hdays.
  replace (days * 86400000 + hh * 3600000 + mm * 60000 + ss * 1000 + mil)
    with t by lia.
  apply if_true_Some.
  repeat (apply andb_true_intro; split); apply Z.leb_le; lia.
Qed.


(** Distinct instants are written differently: a record closed at its
    deadline does not carry the time of the run that closed it. *)
Lemma toISOString_inj t1 t2 :
  JS.isTimeValue t1 -> JS.isTimeValue t2 ->
  JS.toISOString t1 = JS.toISOString t2 -> t1 = t2.
Proof.
  intros H1 H2 E. apply getTime_toISOString in H1, H2.
  rewrite E in H1. congruence.
Qed.

(** [getTime] yields time values only. *)
Lemma getTime_isTimeValue s t : JS.getTime s = Some t -> JS.isTimeValue t.
Proof.
  unfold JS.getTime. intros H.
  repeat match type of H with
         | (?x ≫= _) = _ =>
             destruct x as [?|]; cbn [mbind option_bind] in H;
             [|discriminate H]
         | (let '(_, _) := ?p in _) = _ => destruct p
         end.
  match type of H with
  | match ?r with "" => _ | String _ _ => _ end = _ =>
      destruct r; [|discriminate H]
  end.
  match type of H with
  | (if ?b then _ else _) = _ => destruct b eqn:C; [|discriminate H]
  end.
  injection H as <-. rewrite !andb_true_iff, !Z.leb_le in C.
  unfold JS.isTimeValue. lia.
Qed.

End Dates.

(** ** The auto sign-out policy *)

Section AutoSignOut.

Implicit Types (st : Storage) (now : Z) (r : VisitRecord)
  (records : list VisitRecord).

Lemma isOpen_true r : isOpen r = true <-> signOutAt r = "".
Proof. unfold isOpen. destruct (signOutAt r); simpl; split; congruence. Qed.

Lemma isOpen_false r : isOpen r = false <-> signOutAt r <> "".
Proof. unfold isOpen. destruct (signOutAt r); simpl; split; congruence. Qed.

Lemma loadLog_saveLog records st : loadLog (saveLog records st) = records.
Proof. reflexivity. Qed.

Lemma deadlineMs_deadline r : deadlineMs r = deadline r.
Proof.
  unfold deadlineMs, deadline. destruct (JS.getTime (signInAt r)); reflexivity.
Qed.

Lemma toISOString_nonempty t : JS.toISOString t <> "".
Proof.
  unfold JS.toISOString.
  destruct (JS.civilFromDays (t / JS.msPerDay)) as [[y m] d].
  apply app_nonempty.
Qed.

Lemma due_closed now r : isOpen r = false -> due now r = false.
Proof. unfold due. now intros ->. Qed.

Lemma applyAutoClose1_not_due now r :
  due now r = false -> applyAutoClose1 now r = r.
Proof. unfold applyAutoClose1. intros ->. now destruct (deadline r). Qed.

Lemma applyAutoClose1_due now r :
  due now r = true ->
  exists d, deadline r = Some d /\ (d <= now)%Z /\
    applyAutoClose1 now r =
      set_autoSignedOut true (set_signOutAt (JS.toISOString d) r).
Proof.
  unfold applyAutoClose1. intros H. rewrite H.
  unfold due in H. apply andb_prop in H as [_ H].
  destruct (deadline r) as [d|]; [|discriminate].
  exists d. split; [reflexivity|]. split; [lia | reflexivity].
Qed.

(** The loop is the policy applied to every record, in place; [changed]
    ends true exactly when it was so before or some record was due. *)
Lemma autoSignOutLoop_spec now records changed :
  autoSignOutLoop now records changed =
  (map (applyAutoClose1 now) records, changed || existsb (due now) records).
Proof.
  revert changed. induction records as [|r rest IH]; intros changed; simpl.
  - now rewrite orb_false_r.
  - unfold applyAutoClose1, due, isOpen. rewrite deadlineMs_deadline.
    destruct (JS.truthy (signOutAt r)); simpl.
    + rewrite IH. now destruct (deadline r).
    + destruct (deadline r) as [d|]; simpl.
      * rewrite Z.geb_leb. destruct (d <=? now)%Z; rewrite IH; simpl.
        -- now rewrite orb_true_r.
        -- reflexivity.
      * now rewrite IH.
Qed.

Lemma map_applyAutoClose1_id now records :
  existsb (due now) records = false ->
  map (applyAutoClose1 now) records = records.
Proof.
  induction records as [|r rest IH]; simpl; [reflexivity|].
  intros H. apply orb_false_elim in H as [H1 H2].
  now rewrite applyAutoClose1_not_due, IH.
Qed.

Lemma ensureAutoSignOut_eq st now :
  ensureAutoSignOut st now =
  if existsb (due now) (loadLog st)
  then saveLog (map (applyAutoClose1 now) (loadLog st)) st
  else st.
Proof.
  unfold ensureAutoSignOut. now rewrite autoSignOutLoop_spec.
Qed.

(** After [ensureAutoSignOut] the log read back is the policy applied to
    every record of the log read before. *)
Lemma loadLog_ensureAutoSignOut st now :
  loadLog (ensureAutoSignOut st now) = map (applyAutoClose1 now) (loadLog st).
Proof.
  rewrite ensureAutoSignOut_eq.
  destruct (existsb (due now) (loadLog st)) eqn:E; [reflexivity|].
  now rewrite map_applyAutoClose1_id.
Qed.

Lemma lookup_ensureAutoSignOut st now i r :
  loadLog st !! i = Some r ->
  loadLog (ensureAutoSignOut st now) !! i = Some (applyAutoClose1 now r).
Proof.
  intros Hi. now rewrite loadLog_ensureAutoSignOut, list_lookup_fmap, Hi.
Qed.

(** An open record whose deadline is reached is due, and closed at its
    deadline. *)
Lemma applyAutoClose1_reached now r signInMs :
  signOutAt r = "" ->
  JS.getTime (signInAt r) = Some signInMs ->
  (now >= signInMs + 8 * 60 * 60 * 1000)%Z ->
  due now r = true /\
  applyAutoClose1 now r =
    set_autoSignedOut true
      (set_signOutAt (JS.toISOString (signInMs + 8 * 60 * 60 * 1000)) r).
Proof.
  intros Hopen Ht Hnow.
  assert (Hd : deadline r = Some (signInMs + 8 * 60 * 60 * 1000)%Z)
    by (unfold deadline; now rewrite Ht).
  assert (Hdue : due now r = true).
  { unfold due. rewrite Hd. apply andb_true_intro. split.
    - now apply isOpen_true.
    - apply Z.leb_le. lia. }
  split; [exact Hdue|].
  destruct (applyAutoClose1_due now r Hdue) as (d & Hd' & _ & ->).
  rewrite Hd in Hd'. now injection Hd' as <-.
Qed.

Lemma due_applyAutoClose1 now r : due now (applyAutoClose1 now r) = false.
Proof.
  destruct (due now r) eqn:D.
  - destruct (applyAutoClose1_due now r D) as (d & _ & _ & ->).
    apply due_closed, isOpen_false. apply toISOString_nonempty.
  - now rewrite applyAutoClose1_not_due.
Qed.

(** Running the policy twice at the same instant is running it once. *)
Lemma ensureAutoSignOut_idempotent st now :
  ensureAutoSignOut (ensureAutoSignOut st now) now = ensureAutoSignOut st now.
Proof.
  rewrite (ensureAutoSignOut_eq (ensureAutoSignOut st now)).
  rewrite loadLog_ensureAutoSignOut.
  assert (E : existsb (due now) (map (applyAutoClose1 now) (loadLog st))
              = false).
  { induction (loadLog st) as [|r l IH]; simpl; [reflexivity|].
    now rewrite due_applyAutoClose1, IH. }
  now rewrite E.
Qed.

(** [toISOString] raises a [RangeError] outside the time values.  The
    policy calls it on deadlines that [now] has reached only, and these are
    time values whenever [now], a reading of the clock, is one. *)
Lemma due_deadline_isTimeValue now r d :
  JS.isTimeValue now -> due now r = true -> deadline r = Some d ->
  JS.isTimeValue d.
Proof.
  unfold due, deadline. intros Hnow Hdue Hd.
  destruct (JS.getTime (signInAt r)) as [ms|] eqn:G; [|discriminate].
  injection Hd as <-. apply getTime_isTimeValue in G.
  apply andb_prop in Hdue as [_ Hle]. apply Z.leb_le in Hle.
  unfold JS.isTimeValue, FIXED_DURATION, JS.maxTime in *. lia.
Qed.

End AutoSignOut.

Section AutoSignOutClaims.

Implicit Types (st : Storage) (now : Z) (r : VisitRecord).



Lemma applyAutoClose1_frame now r :
  let r' := applyAutoClose1 now r in
  id r' = id r /\ firstName r' = firstName r /\ lastName r' = lastName r /\
  agency r' = agency r /\ reason r' = reason r /\
  otherDetails r' = otherDetails r /\ signInAt r' = signInAt r /\
  nameKey r' = nameKey r.
Proof.
  unfold applyAutoClose1.
  destruct (deadline r); [destruct (due now r)|]; simpl; repeat split.
Qed.



End AutoSignOutClaims.

(** ** CSV export *)

Section CSV.

Implicit Types (s : string) (r : VisitRecord).

Lemma testSpecial_needsQuoting s : testSpecial s = true <-> needsQuoting s.
Proof.
  unfold needsQuoting. induction s as [|a s IH]; simpl.
  - split; [discriminate | intros (c & [] & _)].
  - rewrite !orb_true_iff, IH, !Ascii.eqb_eq. split.
    + intros [[[->| ->]| ->]|(c & Hin & Hc)]; eauto 6.
    + intros (c & [<-|Hin] & Hc); [tauto | eauto].
Qed.

Lemma replaceQuotes_doubleQuotes s : replaceQuotes s = doubleQuotes s.
Proof.
  unfold doubleQuotes. induction s as [|a s IH]; simpl; [reflexivity|].
  rewrite IH. now destruct (Ascii.eqb a DQUOTE).
Qed.

(** A field is quoted exactly when it needs to be. *)
Lemma escapeCSV_spec s :
  (needsQuoting s -> escapeCSV s = quoted s) /\
  (~ needsQuoting s -> escapeCSV s = s).
Proof.
  unfold escapeCSV, quoted. rewrite <- testSpecial_needsQuoting.
  destruct (testSpecial s); split; intros H; try congruence.
  now rewrite replaceQuotes_doubleQuotes.
Qed.

Lemma pushLines_app (records : list VisitRecord) (lines : list string) :
  pushLines records lines = (lines ++ map csvLine records)%list.
Proof.
  revert lines. induction records as [|r rest IH]; intros lines; simpl.
  - now rewrite app_nil_r.
  - now rewrite IH, <- app_assoc.
Qed.

(** C6. The export is the header row followed by one row per record, in
    stored order, the rows separated by line feeds; a row is the eight
    fields of the record, each escaped on its own, separated by commas, the
    last one being the literal YES or NO; a field is wrapped in double
    quotes, its double quotes doubled, exactly when it holds a comma, a
    double quote or a line feed, and is left as it is otherwise. *)
Theorem toCSV_spec (records : list VisitRecord) :
  toCSV records = JS.join (String LF "") (headerRow :: map csvLine records) /\
  (forall r,
      csvLine r =
        escapeCSV (firstName r) ++ "," ++ escapeCSV (lastName r) ++ ","
        ++ escapeCSV (agency r) ++ "," ++ escapeCSV (reason r) ++ ","
        ++ escapeCSV (otherDetails r) ++ "," ++ escapeCSV (signInAt r) ++ ","
        ++ escapeCSV (signOutAt r) ++ ","
        ++ (if autoSignedOut r then "YES" else "NO")) /\
  (forall field,
      (needsQuoting field -> escapeCSV field = quoted field) /\
      (~ needsQuoting field -> escapeCSV field = field)).
Proof.
  split; [|split].
  - unfold toCSV. now rewrite pushLines_app.
  - intros r. unfold csvLine. simpl. now destruct (autoSignedOut r).
  - apply escapeCSV_spec.
Qed.

(** The escaping example of the specification: the field [a,"b"\nc]. *)
Example escapeCSV_example :
  escapeCSV ("a," ++ String DQUOTE "b" ++ String DQUOTE (String LF "c"))
  = String DQUOTE "a," ++ String DQUOTE (String DQUOTE "b")
    ++ String DQUOTE (String DQUOTE (String LF "c")) ++ String DQUOTE "".
Proof. reflexivity. Qed.

End CSV.

(** ** Sign-out *)

Section SignOut.

Implicit Types (st : Storage) (r : VisitRecord) (key : string)
  (records : list VisitRecord).

Lemma openMatch_test key r :
  negb (JS.truthy (signOutAt r)) && String.eqb (nameKey r) key = true
  <-> openMatch key r.
Proof.
  unfold openMatch.
  rewrite andb_true_iff, negb_true_iff, truthy_false, String.eqb_eq.
  reflexivity.
Qed.

(** The downward scan returns the greatest index below [n] that holds an
    open record with the key. *)
Lemma scanDown_Some records key n i :
  scanDown records key n = Some i ->
  (i < n)%nat /\
  (exists r, records !! i = Some r /\ openMatch key r) /\
  (forall j r, (i < j < n)%nat -> records !! j = Some r -> ~ openMatch key r).
Proof.
  induction n as [|n IH]; simpl; [discriminate|].
  destruct (records !! n) as [r|] eqn:En.
  - destruct (negb (JS.truthy (signOutAt r)) && String.eqb (nameKey r) key)
      eqn:T.
    + intros [= <-]. split; [lia|]. split.
      * exists r. split; [exact En | now apply openMatch_test].
      * intros j r' Hj. lia.
    + intros H. destruct (IH H) as (Hlt & Hex & Hnone).
      split; [lia|]. split; [exact Hex|].
      intros j r' Hj Hr'. destruct (decide (j = n)) as [->|Hne].
      * rewrite En in Hr'. injection Hr' as <-.
        rewrite <- openMatch_test. congruence.
      * apply (Hnone j r'); [lia | exact Hr'].
  - intros H. destruct (IH H) as (Hlt & Hex & Hnone).
    split; [lia|]. split; [exact Hex|].
    intros j r' Hj Hr'. destruct (decide (j = n)) as [->|Hne].
    + congruence.
    + apply (Hnone j r'); [lia | exact Hr'].
Qed.

Lemma scanDown_None records key n :
  scanDown records key n = None ->
  forall j r, (j < n)%nat -> records !! j = Some r -> ~ openMatch key r.
Proof.
  induction n as [|n IH]; simpl; [intros _ j r Hj; lia|].
  destruct (records !! n) as [r|] eqn:En.
  - destruct (negb (JS.truthy (signOutAt r)) && String.eqb (nameKey r) key)
      eqn:T; [discriminate|].
    intros H j r' Hj Hr'. destruct (decide (j = n)) as [->|Hne].
    + rewrite En in Hr'. injection Hr' as <-.
      rewrite <- openMatch_test. congruence.
    + apply (IH H j r'); [lia | exact Hr'].
  - intros H j r' Hj Hr'. destruct (decide (j = n)) as [->|Hne].
    + congruence.
    + apply (IH H j r'); [lia | exact Hr'].
Qed.

Lemma findActiveByNameKey_Some st key records i :
  findActiveByNameKey st key = Some (records, i) ->
  records = loadLog st /\
  (exists r, records !! i = Some r /\ openMatch key r) /\
  (forall j r, (i < j)%nat -> records !! j = Some r -> ~ openMatch key r).
Proof.
  unfold findActiveByNameKey.
  destruct (scanDown (loadLog st) key (length (loadLog st))) as [k|] eqn:E;
    simpl; [|discriminate].
  intros [= <- <-]. apply scanDown_Some in E as (Hlt & Hex & Hnone).
  split; [reflexivity|]. split; [exact Hex|].
  intros j r Hj Hr. apply (Hnone j r); [|exact Hr].
  apply lookup_lt_Some in Hr. lia.
Qed.

Lemma findActiveByNameKey_None st key :
  findActiveByNameKey st key = None <->
  forall j r, loadLog st !! j = Some r -> ~ openMatch key r.
Proof.
  unfold findActiveByNameKey.
  destruct (scanDown (loadLog st) key (length (loadLog st))) as [k|] eqn:E;
    simpl.
  - split; [discriminate|]. intros H.
    apply scanDown_Some in E as (_ & (r & Hr & Hm) & _).
    destruct (H k r Hr Hm).
  - split; [|reflexivity]. intros _ j r Hr.
    apply (scanDown_None _ _ _ E j r); [|exact Hr].
    now apply lookup_lt_Some in Hr.
Qed.

Lemma closeAt_lookup records i r tNow :
  records !! i = Some r ->
  closeAt records i tNow =
    <[i := set_autoSignedOut false (set_signOutAt (nowISO tNow) r)]> records.
Proof. unfold closeAt. now intros ->. Qed.

(** C1. A sign-out request whose normalized key matches an open record of
    the current collection (the stored one after the policy the handler
    runs first) closes the record found by the scan in reverse creation
    order: the open record with that key at the greatest position.  That
    record gets [signOutAt = now] and [autoSignedOut = false], the
    collection is saved, and every other record, in particular every
    earlier open record with the same key, stays as it was. *)
Theorem signOutSubmit_closes_latest_open_match st tPolicy tNow fullName :
  normalizeName fullName <> "" ->
  (exists j r0,
      loadLog (ensureAutoSignOut st tPolicy) !! j = Some r0 /\
      openMatch (normalizeName fullName) r0) ->
  exists i r,
    loadLog (ensureAutoSignOut st tPolicy) !! i = Some r /\
    openMatch (normalizeName fullName) r /\
    (forall j r',
        (i < j)%nat ->
        loadLog (ensureAutoSignOut st tPolicy) !! j = Some r' ->
        ~ openMatch (normalizeName fullName) r') /\
    signOutSubmit st tPolicy tNow fullName =
      (saveLog
         (<[i := set_autoSignedOut false
                   (set_signOutAt (JS.toISOString tNow) r)]>
            (loadLog (ensureAutoSignOut st tPolicy)))
         (ensureAutoSignOut st tPolicy),
       AlertOk "Signed out successfully. Returning to home screen...") /\
    (exists r',
        loadLog (signOutSubmit st tPolicy tNow fullName).1 !! i = Some r' /\
        signOutAt r' = JS.toISOString tNow /\ signOutAt r' <> "" /\
        autoSignedOut r' = false) /\
    (forall j,
        j <> i ->
        loadLog (signOutSubmit st tPolicy tNow fullName).1 !! j =
        loadLog (ensureAutoSignOut st tPolicy) !! j).
Proof.
  intros Hkey (j0 & r0 & Hj0 & Hm0).
  unfold signOutSubmit.
  apply truthy_true in Hkey. rewrite Hkey. simpl negb. cbv iota.
  destruct (findActiveByNameKey (ensureAutoSignOut st tPolicy)
              (normalizeName fullName)) as [[records i]|] eqn:F.
  - apply findActiveByNameKey_Some in F as (-> & (r & Hr & Hm) & Hlast).
    exists i, r. split; [exact Hr|]. split; [exact Hm|].
    split; [exact Hlast|].
    rewrite (closeAt_lookup _ _ _ _ Hr). unfold nowISO.
    split; [reflexivity|]. simpl fst. rewrite loadLog_saveLog. split.
    + eexists. split.
      * apply list_lookup_insert_eq. now apply lookup_lt_Some in Hr.
      * split; [reflexivity|].
        split; [apply toISOString_nonempty | reflexivity].
    + intros j Hj. now apply list_lookup_insert_ne.
  - exfalso. rewrite findActiveByNameKey_None in F. exact (F j0 r0 Hj0 Hm0).
Qed.

(** The scenario of the specification for C1: of the two open visits of
    Jane Doe, a sign-out at [T2] closes the one created at [T1]. *)
Lemma signOutSubmit_closes_latest_open_match_witness :
  normalizeName "Jane Doe" <> "" /\
  (exists j r0,
      loadLog (ensureAutoSignOut twoVisits T2) !! j = Some r0 /\
      openMatch (normalizeName "Jane Doe") r0) /\
  exists i r,
    loadLog (ensureAutoSignOut twoVisits T2) !! i = Some r /\
    openMatch (normalizeName "Jane Doe") r /\
    (forall j r',
        (i < j)%nat ->
        loadLog (ensureAutoSignOut twoVisits T2) !! j = Some r' ->
        ~ openMatch (normalizeName "Jane Doe") r') /\
    signOutSubmit twoVisits T2 T2 "Jane Doe" =
      (saveLog
         (<[i := set_autoSignedOut false
                   (set_signOutAt (JS.toISOString T2) r)]>
            (loadLog (ensureAutoSignOut twoVisits T2)))
         (ensureAutoSignOut twoVisits T2),
       AlertOk "Signed out successfully. Returning to home screen...") /\
    (exists r',
        loadLog (signOutSubmit twoVisits T2 T2 "Jane Doe").1 !! i = Some r' /\
        signOutAt r' = JS.toISOString T2 /\ signOutAt r' <> "" /\
        autoSignedOut r' = false) /\
    (forall j,
        j <> i ->
        loadLog (signOutSubmit twoVisits T2 T2 "Jane Doe").1 !! j =
        loadLog (ensureAutoSignOut twoVisits T2) !! j).
Proof.
  assert (H1 : normalizeName "Jane Doe" <> "") by discriminate.
  assert (H2 : exists j r0,
             loadLog (ensureAutoSignOut twoVisits T2) !! j = Some r0 /\
             openMatch (normalizeName "Jane Doe") r0).
  { exists 0%nat, janeAtT0. split; [reflexivity | split; reflexivity]. }
  split; [exact H1|]. split; [exact H2|].
  exact (signOutSubmit_closes_latest_open_match twoVisits T2 T2 "Jane Doe"
           H1 H2).
Defined.

(** The same scenario, evaluated: the visit of [T1] is closed at [T2], the
    visit of [T0] is still open. *)
Example signOut_scenario :
  loadLog (signOutSubmit twoVisits T2 T2 "Jane Doe").1 =
  [ janeAtT0;
    set_autoSignedOut false
      (set_signOutAt "2023-11-14T22:15:20.000Z" janeAtT1) ].
Proof. reflexivity. Qed.

End SignOut.

(** ** Failing operations *)

Section Failures.

Implicit Types (st : Storage) (form : SignInForm).

Lemma signInSubmit_cases st u tId tNow form :
  (JS.trim (firstNameValue form) = "" \/ JS.trim (lastNameValue form) = "" \/
   JS.trim (agencyValue form) = "" \/
   reasonValue form = "Other" /\ JS.trim (otherDetailsValue form) = "") /\
  (signInSubmit st u tId tNow form).1 = st /\
  failureOf (signInSubmit st u tId tNow form).2 = Some ValidationError
  \/
  (JS.trim (firstNameValue form) <> "" /\ JS.trim (lastNameValue form) <> "" /\
   JS.trim (agencyValue form) <> "" /\
   (reasonValue form = "Other" -> JS.trim (otherDetailsValue form) <> "")) /\
  signInSubmit st u tId tNow form =
    (saveLog
       (loadLog st ++
        [newRecord u tId tNow (JS.trim (firstNameValue form))
           (JS.trim (lastNameValue form)) (JS.trim (agencyValue form))
           (reasonValue form) (JS.trim (otherDetailsValue form))])%list st,
     AlertOk "Signed in successfully. Returning to home screen...").
Proof.
  unfold signInSubmit.
  destruct (JS.trim (firstNameValue form)) as [|c1 f] eqn:E1;
    [left; simpl; tauto|].
  destruct (JS.trim (lastNameValue form)) as [|c2 l] eqn:E2;
    [left; simpl; tauto|].
  destruct (JS.trim (agencyValue form)) as [|c3 a] eqn:E3;
    [left; simpl; tauto|].
  simpl negb. cbv iota. simpl orb. cbv iota.
  destruct (String.eqb (reasonValue form) "Other") eqn:R.
  - apply String.eqb_eq in R.
    destruct (JS.trim (otherDetailsValue form)) as [|c4 o] eqn:E4.
    + left. simpl. tauto.
    + right. simpl. repeat split; discriminate.
  - right. simpl. apply String.eqb_neq in R.
    repeat split; try discriminate. intros H. contradiction.
Qed.

Lemma signOutSubmit_cases st tPolicy tNow fullName :
  normalizeName fullName = "" /\
  signOutSubmit st tPolicy tNow fullName =
    (ensureAutoSignOut st tPolicy,
     AlertErr "Please type your first and last name.")
  \/
  normalizeName fullName <> "" /\
  (forall j r,
      loadLog (ensureAutoSignOut st tPolicy) !! j = Some r ->
      ~ openMatch (normalizeName fullName) r) /\
  signOutSubmit st tPolicy tNow fullName =
    (ensureAutoSignOut st tPolicy,
     AlertErr
       "Name not recognized. Please check spelling or ask staff for help.")
  \/
  normalizeName fullName <> "" /\
  exists i r,
    loadLog (ensureAutoSignOut st tPolicy) !! i = Some r /\
    openMatch (normalizeName fullName) r /\
    signOutSubmit st tPolicy tNow fullName =
      (saveLog
         (<[i := set_autoSignedOut false
                   (set_signOutAt (JS.toISOString tNow) r)]>
            (loadLog (ensureAutoSignOut st tPolicy)))
         (ensureAutoSignOut st tPolicy),
       AlertOk "Signed out successfully. Returning to home screen...").
Proof.
  unfold signOutSubmit.
  destruct (normalizeName fullName) as [|c k] eqn:K; [left; tauto|].
  right. simpl negb. cbv iota.
  destruct (findActiveByNameKey (ensureAutoSignOut st tPolicy) (String c k))
    as [[records i]|] eqn:F.
  - right. split; [discriminate|].
    apply findActiveByNameKey_Some in F as (-> & (r & Hr & Hm) & _).
    exists i, r. split; [exact Hr|]. split; [exact Hm|].
    now rewrite (closeAt_lookup _ _ _ _ Hr).
  - left. split; [discriminate|]. split; [|reflexivity].
    now apply findActiveByNameKey_None.
Qed.

(** C4, as the code has it.  A sign-in that fails validation (first name,
    last name or agency empty after trimming, or reason Other with empty
    details) leaves the storage untouched.  A sign-out that fails, with a
    validation error on an empty key or with a not-found error when no open
    record of the current collection has the key, leaves the storage as
    the auto sign-out policy, which the handler runs first, has left it:
    no record is created and none is signed out explicitly.  Conversely
    every failure of either handler is one of these cases. *)
Theorem failures_leave_store_to_policy :
  (forall st u tId tNow form,
      (JS.trim (firstNameValue form) = "" \/
       JS.trim (lastNameValue form) = "" \/
       JS.trim (agencyValue form) = "" \/
       reasonValue form = "Other" /\ JS.trim (otherDetailsValue form) = "")
      <->
      failureOf (signInSubmit st u tId tNow form).2 = Some ValidationError) /\
  (forall st u tId tNow form,
      failureOf (signInSubmit st u tId tNow form).2 <> None ->
      (signInSubmit st u tId tNow form).1 = st) /\
  (forall st tPolicy tNow fullName,
      normalizeName fullName = "" <->
      failureOf (signOutSubmit st tPolicy tNow fullName).2
      = Some ValidationError) /\
  (forall st tPolicy tNow fullName,
      (normalizeName fullName <> "" /\
       forall j r,
         loadLog (ensureAutoSignOut st tPolicy) !! j = Some r ->
         ~ openMatch (normalizeName fullName) r)
      <->
      failureOf (signOutSubmit st tPolicy tNow fullName).2
      = Some NotFoundError) /\
  (forall st tPolicy tNow fullName,
      failureOf (signOutSubmit st tPolicy tNow fullName).2 <> None ->
      (signOutSubmit st tPolicy tNow fullName).1
      = ensureAutoSignOut st tPolicy).
Proof.
  split; [|split; [|split; [|split]]].
  - intros st u tId tNow form.
    destruct (signInSubmit_cases st u tId tNow form)
      as [(C & _ & F)|((N1 & N2 & N3 & N4) & ->)].
    + tauto.
    + simpl. split; [|discriminate]. intros [?|[?|[?|[? ?]]]]; tauto.
  - intros st u tId tNow form.
    destruct (signInSubmit_cases st u tId tNow form)
      as [(_ & S & _)|(_ & ->)]; [tauto|]. simpl. congruence.
  - intros st tPolicy tNow fullName.
    destruct (signOutSubmit_cases st tPolicy tNow fullName)
      as [(K & ->)|[(K & _ & ->)|(K & i & r & _ & _ & ->)]]; simpl.
    + tauto.
    + split; [contradiction | discriminate].
    + split; [contradiction | discriminate].
  - intros st tPolicy tNow fullName.
    destruct (signOutSubmit_cases st tPolicy tNow fullName)
      as [(K & ->)|[(K & N & ->)|(K & i & r & Hr & Hm & ->)]]; simpl.
    + split; [intros [? _]; contradiction | discriminate].
    + tauto.
    + split; [|discriminate]. intros [_ N]. destruct (N i r Hr Hm).
  - intros st tPolicy tNow fullName.
    destruct (signOutSubmit_cases st tPolicy tNow fullName)
      as [(K & ->)|[(K & N & ->)|(K & i & r & Hr & Hm & ->)]]; simpl;
      congruence.
Qed.

(** C4 fails as stated: a sign-out with an empty name, and one with an
    unknown name, made eight hours after Jane Doe signed in, both fail and
    both leave her visit closed in the storage. *)
Lemma failing_signOut_changes_store :
  failureOf (signOutSubmit oneVisit (T0 + 28800000) (T0 + 28800000) "  ").2
  = Some ValidationError /\
  item (signOutSubmit oneVisit (T0 + 28800000) (T0 + 28800000) "  ").1
  <> item oneVisit /\
  failureOf
    (signOutSubmit oneVisit (T0 + 28800000) (T0 + 28800000) "John Roe").2
  = Some NotFoundError /\
  item (signOutSubmit oneVisit (T0 + 28800000) (T0 + 28800000) "John Roe").1
  <> item oneVisit /\
  item oneVisit = Some [janeAtT0] /\
  item (signOutSubmit oneVisit (T0 + 28800000) (T0 + 28800000) "John Roe").1
  = Some [set_autoSignedOut true
            (set_signOutAt "2023-11-15T06:13:20.000Z" janeAtT0)].
Proof.
  repeat split; try reflexivity; intros H; vm_compute in H; discriminate H.
Qed.

End Failures.

(** ** Sign-in *)

Section SignIn.

Implicit Types (st : Storage) (form : SignInForm) (r : VisitRecord).

(** C3, as the code has it.  A sign-in whose first name, last name and
    agency are not empty after trimming, and whose details are not empty
    when the reason is Other, saves the collection with one record appended
    at its end and every earlier record unchanged.  The new record has for
    id the value of [crypto.randomUUID()] where the browser has it and the
    decimal reading of the clock otherwise (so the ids of the collection
    stay distinct whenever that value is not yet the id of a stored
    record; the handler does not check it), the key
    [normalizeName(firstName + " " + lastName)], which is also the key of
    the names as typed, [signInAt = now], an empty [signOutAt],
    [autoSignedOut = false], the trimmed first name, last name and agency,
    and details that are the trimmed details under the reason Other and
    empty under any other reason. *)
Theorem signInSubmit_appends_record st u tId tNow form :
  JS.trim (firstNameValue form) <> "" ->
  JS.trim (lastNameValue form) <> "" ->
  JS.trim (agencyValue form) <> "" ->
  (reasonValue form = "Other" -> JS.trim (otherDetailsValue form) <> "") ->
  exists record,
    signInSubmit st u tId tNow form =
      (saveLog (loadLog st ++ [record])%list st,
       AlertOk "Signed in successfully. Returning to home screen...") /\
    loadLog (signInSubmit st u tId tNow form).1
    = (loadLog st ++ [record])%list /\
    id record = match u with
                | Some v => v
                | None => JS.numberToString tId
                end /\
    (NoDup (id <$> loadLog st) ->
     id record ∉ (id <$> loadLog st) ->
     NoDup (id <$> loadLog (signInSubmit st u tId tNow form).1)) /\
    firstName record = JS.trim (firstNameValue form) /\
    lastName record = JS.trim (lastNameValue form) /\
    agency record = JS.trim (agencyValue form) /\
    reason record = reasonValue form /\
    (reasonValue form = "Other" ->
     otherDetails record = JS.trim (otherDetailsValue form) /\
     otherDetails record <> "") /\
    (reasonValue form <> "Other" -> otherDetails record = "") /\
    signInAt record = JS.toISOString tNow /\
    signOutAt record = "" /\
    autoSignedOut record = false /\
    nameKey record = normalizeName (firstName record ++ " " ++ lastName record)
    /\
    nameKey record
    = normalizeName (firstNameValue form ++ " " ++ lastNameValue form).
Proof.
  intros H1 H2 H3 H4.
  destruct (signInSubmit_cases st u tId tNow form)
    as [([C|[C|[C|[C1 C2]]]] & _)|(_ & E)]; try contradiction.
  { now apply H4 in C1. }
  eexists. split; [exact E|]. rewrite E. simpl fst. rewrite loadLog_saveLog.
  split; [reflexivity|]. split; [reflexivity|]. split.
  { intros ND Hfresh. rewrite fmap_app. apply NoDup_app.
    split; [exact ND|]. split; [|apply NoDup_singleton].
    intros x Hx Hx'. apply list_elem_of_singleton in Hx'. now subst x. }
  repeat (split; [reflexivity|]). simpl. split; [|split].
  - intros R. rewrite R. simpl. split; [reflexivity | now apply H4].
  - intros R. apply String.eqb_neq in R. now rewrite R.
  - repeat (split; [reflexivity|]). apply makeNameKey_trim.
Qed.

Lemma signInSubmit_appends_record_witness :
  JS.trim (firstNameValue janeForm') <> "" /\
  JS.trim (lastNameValue janeForm') <> "" /\
  JS.trim (agencyValue janeForm') <> "" /\
  (reasonValue janeForm' = "Other" ->
   JS.trim (otherDetailsValue janeForm') <> "") /\
  exists record,
    signInSubmit oneVisit None T1 T1 janeForm' =
      (saveLog (loadLog oneVisit ++ [record])%list oneVisit,
       AlertOk "Signed in successfully. Returning to home screen...") /\
    loadLog (signInSubmit oneVisit None T1 T1 janeForm').1
    = (loadLog oneVisit ++ [record])%list /\
    id record = JS.numberToString T1 /\
    (NoDup (id <$> loadLog oneVisit) ->
     id record ∉ (id <$> loadLog oneVisit) ->
     NoDup (id <$> loadLog (signInSubmit oneVisit None T1 T1 janeForm').1)) /\
    firstName record = JS.trim (firstNameValue janeForm') /\
    lastName record = JS.trim (lastNameValue janeForm') /\
    agency record = JS.trim (agencyValue janeForm') /\
    reason record = reasonValue janeForm' /\
    (reasonValue janeForm' = "Other" ->
     otherDetails record = JS.trim (otherDetailsValue janeForm') /\
     otherDetails record <> "") /\
    (reasonValue janeForm' <> "Other" -> otherDetails record = "") /\
    signInAt record = JS.toISOString T1 /\
    signOutAt record = "" /\
    autoSignedOut record = false /\
    nameKey record = normalizeName (firstName record ++ " " ++ lastName record)
    /\
    nameKey record
    = normalizeName (firstNameValue janeForm' ++ " " ++ lastNameValue janeForm').
Proof.
  assert (H1 : JS.trim (firstNameValue janeForm') <> "") by discriminate.
  assert (H2 : JS.trim (lastNameValue janeForm') <> "") by discriminate.
  assert (H3 : JS.trim (agencyValue janeForm') <> "") by discriminate.
  assert (H4 : reasonValue janeForm' = "Other" ->
               JS.trim (otherDetailsValue janeForm') <> "") by discriminate.
  repeat (split; [assumption|]).
  exact (signInSubmit_appends_record oneVisit None T1 T1 janeForm'
           H1 H2 H3 H4).
Defined.

(** The two sign-ins of the scenario, evaluated. *)
Example signIn_scenario : loadLog twoVisits = [janeAtT0; janeAtT1].
Proof. reflexivity. Qed.

(** C3 fails as stated on the id: in a browser without
    [crypto.randomUUID], a sign-in made at a clock reading at which an
    earlier record was made gets the id of that record. *)
Lemma signInSubmit_id_collision :
  failureOf (signInSubmit oneVisit None T0 T0 janeForm').2 = None /\
  exists a b,
    loadLog oneVisit = [a] /\
    loadLog (signInSubmit oneVisit None T0 T0 janeForm').1 = [a; b] /\
    id b = id a.
Proof.
  split; [reflexivity|]. eexists. eexists.
  split; [reflexivity|]. split; reflexivity.
Qed.

(** C9, as the code has it.  The policy runs when the sign-in page is
    loaded, at the time of the load: every open record whose deadline has
    passed by then is closed with [autoSignedOut = true], and the
    collection is saved.  The submission does not run the policy: whether
    it succeeds or fails, every record stored before it is stored
    unchanged after it. *)
Theorem signIn_policy_runs_at_page_load :
  (forall st now i r signInMs,
      loadLog st !! i = Some r ->
      signOutAt r = "" ->
      JS.getTime (signInAt r) = Some signInMs ->
      (now >= signInMs + 8 * 60 * 60 * 1000)%Z ->
      exists r',
        loadLog (initSignIn st now) !! i = Some r' /\
        signOutAt r' = JS.toISOString (signInMs + 8 * 60 * 60 * 1000) /\
        signOutAt r' <> "" /\
        autoSignedOut r' = true /\
        item (initSignIn st now) = Some (loadLog (initSignIn st now))) /\
  (forall st u tId tNow form i r,
      loadLog st !! i = Some r ->
      loadLog (signInSubmit st u tId tNow form).1 !! i = Some r).
Proof.
  split.
  - intros st now i r signInMs Hi Hopen Ht Hnow. unfold initSignIn.
    destruct (applyAutoClose1_reached now r signInMs Hopen Ht Hnow)
      as [Hdue Hr'].
    eexists. split; [exact (lookup_ensureAutoSignOut st now i r Hi)|].
    rewrite Hr'.
    split; [reflexivity|].
    split; [apply toISOString_nonempty|]. split; [reflexivity|].
    rewrite ensureAutoSignOut_eq.
    assert (D : existsb (due now) (loadLog st) = true).
    { apply existsb_exists. exists r. split; [|exact Hdue].
      apply list_elem_of_In, list_elem_of_lookup. eauto. }
    now rewrite D.
  - intros st u tId tNow form i r Hi.
    destruct (signInSubmit_cases st u tId tNow form)
      as [(_ & -> & _)|(_ & ->)]; [exact Hi|].
    simpl fst. rewrite loadLog_saveLog. now apply lookup_app_l_Some.
Qed.

(** C9 fails as stated: the sign-in page is loaded one hour after Jane Doe
    signed in, and a second visitor signs in on it seven hours later, at
    her deadline; her record is still open in the collection the
    submission saves. *)
Lemma signInSubmit_leaves_due_record_open :
  failureOf
    (signInSubmit (initSignIn oneVisit (T0 + 3600000)) None
       (T0 + 28800000) (T0 + 28800000) janeForm').2 = None /\
  exists r,
    loadLog
      (signInSubmit (initSignIn oneVisit (T0 + 3600000)) None
         (T0 + 28800000) (T0 + 28800000) janeForm').1 !! 0%nat = Some r /\
    signOutAt r = "" /\
    JS.getTime (signInAt r) = Some T0 /\
    (T0 + 28800000 >= T0 + 8 * 60 * 60 * 1000)%Z.
Proof.
  split; [reflexivity|]. exists janeAtT0.
  split; [reflexivity|]. split; [reflexivity|]. split; [reflexivity|].
  unfold T0. lia.
Qed.

End SignIn.

(** ** The records view *)

Section Records.

Implicit Types (st : Storage) (r : VisitRecord) (s q : string).

Lemma startsWith_spec s q :
  JS.startsWith s q = true <-> exists post, s = q ++ post.
Proof.
  revert s; induction q as [|b q IH]; intros s; simpl.
  - destruct s; split; eauto.
  - destruct s as [|a s]; simpl.
    + split; [discriminate | intros [post H]; discriminate].
    + rewrite andb_true_iff, Ascii.eqb_eq, IH. split.
      * intros [-> [post ->]]. eauto.
      * intros [post [= -> ->]]. eauto.
Qed.

Lemma includes_eq s q :
  JS.includes s q =
  JS.startsWith s q
  || match s with "" => false | String _ s' => JS.includes s' q end.
Proof. destruct s; reflexivity. Qed.

Lemma includes_spec s q : JS.includes s q = true <-> substring q s.
Proof.
  unfold substring. induction s as [|a s IH]; rewrite includes_eq.
  - rewrite orb_false_r, startsWith_spec. split.
    + intros [post H]. exists "", post. exact H.
    + intros (pre & post & H). destruct pre; [eauto | discriminate].
  - rewrite orb_true_iff, startsWith_spec, IH. split.
    + intros [[post H]|(pre & post & H)].
      * exists "", post. exact H.
      * exists (String a pre), post. simpl. now rewrite H.
    + intros (pre & post & H). destruct pre as [|a' pre]; simpl in H.
      * left. eauto.
      * right. injection H as <- ->. eauto.
Qed.

Lemma toLowerCase_empty_iff s : JS.toLowerCase s = "" <-> s = "".
Proof. destruct s; simpl; split; congruence. Qed.

Lemma filter_all {A} (f : A -> bool) (l : list A) :
  (forall x, f x = true) -> List.filter f l = l.
Proof.
  intros H. induction l as [|x l IH]; simpl; [reflexivity|].
  now rewrite H, IH.
Qed.

(** C8, as the code has it.  The records view applies the policy, then
    lists the stored records newest first; it keeps a record exactly when
    the filter text, trimmed, is empty or occurs, case ignored, in the
    record's first name, last name, agency, reason and other details
    joined by single spaces. *)
Theorem render_lists_newest_first st now search :
  (render st now search).1 = ensureAutoSignOut st now /\
  (exists keep,
      (render st now search).2
      = List.filter keep (rev (loadLog (ensureAutoSignOut st now))) /\
      forall r,
        keep r = true <->
        JS.trim search = "" \/ ci_substring (JS.trim search) (searchText r)) /\
  (JS.trim search = "" ->
   (render st now search).2 = rev (loadLog (ensureAutoSignOut st now))).
Proof.
  unfold render. simpl fst. simpl snd. split; [reflexivity|].
  destruct (JS.truthy (JS.toLowerCase (JS.trim search))) eqn:T.
  - apply truthy_true in T. rewrite toLowerCase_empty_iff in T. split.
    + eexists. split; [reflexivity|]. intros r. cbv beta.
      rewrite includes_spec. unfold ci_substring, hay, searchText.
      split; [now right | now intros [E|H]].
    + contradiction.
  - apply truthy_false in T.
    apply (proj1 (toLowerCase_empty_iff _)) in T. split.
    + exists (fun _ => true). split; [now rewrite filter_all|].
      intros r. split; [now left | reflexivity].
    + reflexivity.
Qed.

(** C8 fails as stated: the filter text [" jane"] is not empty and does not
    occur, case ignored, in the text of Jane Doe's record (nor in its
    fields put end to end), yet the view lists the record. *)
Lemma render_trims_filter_text :
  " jane" <> "" /\
  (render oneVisit T0 " jane").2 = [janeAtT0] /\
  ~ ci_substring " jane" (searchText janeAtT0) /\
  ~ ci_substring " jane"
      (firstName janeAtT0 ++ lastName janeAtT0 ++ agency janeAtT0
       ++ reason janeAtT0 ++ otherDetails janeAtT0).
Proof.
  split; [discriminate|]. split; [reflexivity|].
  unfold ci_substring. rewrite <- !includes_spec. split; discriminate.
Qed.

End Records.

(** ** The life of a record *)

Section Lifecycle.

Implicit Types (st : Storage) (r : VisitRecord) (e : Event).

Lemma closed_not_openMatch key r : signOutAt r <> "" -> ~ openMatch key r.
Proof. intros H [H' _]. contradiction. Qed.

Lemma closed_kept_by_policy st now i r :
  loadLog st !! i = Some r -> signOutAt r <> "" ->
  loadLog (ensureAutoSignOut st now) !! i = Some r.
Proof.
  intros Hi Hc. rewrite (lookup_ensureAutoSignOut st now i r Hi).
  f_equal. apply applyAutoClose1_not_due, due_closed. now apply isOpen_false.
Qed.

Lemma closed_not_found st key records j i r :
  loadLog st !! i = Some r -> signOutAt r <> "" ->
  findActiveByNameKey st key = Some (records, j) -> j <> i.
Proof.
  intros Hi Hc F.
  apply findActiveByNameKey_Some in F as (-> & (r' & Hr' & Hm) & _).
  intros ->. rewrite Hi in Hr'. injection Hr' as <-.
  exact (closed_not_openMatch key r Hc Hm).
Qed.

Lemma closed_kept_by_signOut st tPolicy tNow fullName i r :
  loadLog st !! i = Some r -> signOutAt r <> "" ->
  loadLog (signOutSubmit st tPolicy tNow fullName).1 !! i = Some r.
Proof.
  intros Hi Hc.
  pose proof (closed_kept_by_policy st tPolicy i r Hi Hc) as Hp.
  destruct (signOutSubmit_cases st tPolicy tNow fullName)
    as [(_ & ->)|[(_ & _ & ->)|(_ & j & r' & Hr' & Hm & ->)]];
    simpl fst; try exact Hp.
  rewrite loadLog_saveLog, list_lookup_insert_ne; [exact Hp|].
  intros ->. rewrite Hp in Hr'. injection Hr' as <-.
  exact (closed_not_openMatch _ r Hc Hm).
Qed.

Lemma kept_by_signIn st u tId tNow form i r :
  loadLog st !! i = Some r ->
  loadLog (signInSubmit st u tId tNow form).1 !! i = Some r.
Proof.
  intros Hi.
  destruct (signInSubmit_cases st u tId tNow form)
    as [(_ & -> & _)|(_ & ->)]; [exact Hi|].
  simpl fst. rewrite loadLog_saveLog. now apply lookup_app_l_Some.
Qed.

Lemma closed_kept_by_step st e i r :
  isConfirmedClear e = false ->
  loadLog st !! i = Some r -> signOutAt r <> "" ->
  loadLog (step st e) !! i = Some r.
Proof.
  intros Hclear Hi Hc. destruct e as [now|u tId tNow form|tPolicy tNow fullName
                                    |now search| |confirmed now search]; simpl.
  - now apply closed_kept_by_policy.
  - now apply kept_by_signIn.
  - now apply closed_kept_by_signOut.
  - now apply closed_kept_by_policy.
  - exact Hi.
  - destruct confirmed; [discriminate | exact Hi].
Qed.

Lemma closed_kept_by_run st es i r :
  Forall (fun e => isConfirmedClear e = false) es ->
  loadLog st !! i = Some r -> signOutAt r <> "" ->
  loadLog (run st es) !! i = Some r.
Proof.
  intros Hes. revert st. induction Hes as [|e es He _ IH]; intros st Hi Hc.
  - exact Hi.
  - simpl. apply IH; [|exact Hc]. now apply closed_kept_by_step.
Qed.

(** C7. Closing is terminal.  Once a stored record is closed, the auto
    sign-out policy leaves it as it is, the sign-out lookup never returns
    its position, an explicit sign-out leaves it as it is, and so does
    every sequence of events of the application in which the log is not
    cleared: its [signOutAt] and [autoSignedOut] are never written
    again. *)
Theorem closing_is_terminal st i r :
  loadLog st !! i = Some r ->
  signOutAt r <> "" ->
  (forall now, loadLog (ensureAutoSignOut st now) !! i = Some r) /\
  (forall key records j,
      findActiveByNameKey st key = Some (records, j) -> j <> i) /\
  (forall tPolicy tNow fullName,
      loadLog (signOutSubmit st tPolicy tNow fullName).1 !! i = Some r) /\
  (forall es,
      Forall (fun e => isConfirmedClear e = false) es ->
      loadLog (run st es) !! i = Some r).
Proof.
  intros Hi Hc. split; [|split; [|split]].
  - intros now. now apply closed_kept_by_policy.
  - intros key records j. now apply closed_not_found with (r := r).
  - intros tPolicy tNow fullName. now apply closed_kept_by_signOut.
  - intros es Hes. now apply closed_kept_by_run.
Qed.

Lemma closing_is_terminal_witness :
  loadLog afterSignOut !! 1%nat = Some janeClosed /\
  signOutAt janeClosed <> "" /\
  (forall now,
      loadLog (ensureAutoSignOut afterSignOut now) !! 1%nat = Some janeClosed)
  /\
  (forall key records j,
      findActiveByNameKey afterSignOut key = Some (records, j) -> j <> 1%nat)
  /\
  (forall tPolicy tNow fullName,
      loadLog (signOutSubmit afterSignOut tPolicy tNow fullName).1 !! 1%nat
      = Some janeClosed) /\
  (forall es,
      Forall (fun e => isConfirmedClear e = false) es ->
      loadLog (run afterSignOut es) !! 1%nat = Some janeClosed).
Proof.
  assert (H1 : loadLog afterSignOut !! 1%nat = Some janeClosed)
    by reflexivity.
  assert (H2 : signOutAt janeClosed <> "") by discriminate.
  split; [exact H1|]. split; [exact H2|].
  exact (closing_is_terminal afterSignOut 1 janeClosed H1 H2).
Defined.

(** A second sign-out of Jane Doe after the first closes her other visit,
    and a third finds no open one: the closed visits are not matched. *)
Example signOut_twice :
  loadLog (run twoVisits
             [SignOutSubmitted T2 T2 "Jane Doe";
              SignOutSubmitted (T2 + 1000) (T2 + 1000) "jane doe"])
  = [ set_autoSignedOut false
        (set_signOutAt "2023-11-14T22:15:21.000Z" janeAtT0);
      janeClosed ]
  /\ failureOf
       (signOutSubmit
          (run twoVisits
             [SignOutSubmitted T2 T2 "Jane Doe";
              SignOutSubmitted (T2 + 1000) (T2 + 1000) "jane doe"])
          (T2 + 2000) (T2 + 2000) "Jane Doe").2 = Some NotFoundError.
Proof. split; reflexivity. Qed.

End Lifecycle.

(** ** From sign-in to auto sign-out *)

Section EndToEnd.

Implicit Types (st : Storage) (r : VisitRecord) (e : Event).

(** The deadline of a record made by a sign-in at [tNow] is [tNow] plus
    eight hours. *)
Lemma newRecord_deadline u tId tNow first last agency reasonVal other :
  JS.isTimeValue tNow ->
  deadline (newRecord u tId tNow first last agency reasonVal other)
  = Some (tNow + 28800000)%Z.
Proof.
  intros H. unfold deadline, newRecord, nowISO. cbn [signInAt].
  now rewrite getTime_toISOString.
Qed.

(** A visitor who signs in at [tNow] and never signs out is found signed
    out at [tNow] plus eight hours by the first run of the policy at or
    after that instant, and open by every run before it. *)
Lemma signIn_then_policy st u tId tNow form now :
  JS.isTimeValue tNow ->
  failureOf (signInSubmit st u tId tNow form).2 = None ->
  exists r,
    loadLog (signInSubmit st u tId tNow form).1 !! length (loadLog st)
    = Some r /\
    signOutAt r = "" /\
    ((now >= tNow + 8 * 60 * 60 * 1000)%Z ->
     loadLog (ensureAutoSignOut (signInSubmit st u tId tNow form).1 now)
       !! length (loadLog st)
     = Some (set_autoSignedOut true
               (set_signOutAt
                  (JS.toISOString (tNow + 8 * 60 * 60 * 1000)) r))) /\
    ((now < tNow + 8 * 60 * 60 * 1000)%Z ->
     loadLog (ensureAutoSignOut (signInSubmit st u tId tNow form).1 now)
       !! length (loadLog st)
     = Some r).
Proof.
  intros Ht Hok.
  destruct (signInSubmit_cases st u tId tNow form)
    as [(_ & _ & F)|(_ & E)]; [congruence|].
  rewrite E. simpl fst. eexists.
  assert (L : loadLog
                (saveLog
                   (loadLog st ++
                    [newRecord u tId tNow (JS.trim (firstNameValue form))
                       (JS.trim (lastNameValue form))
                       (JS.trim (agencyValue form)) (reasonValue form)
                       (JS.trim (otherDetailsValue form))])%list st)
              !! length (loadLog st)
              = Some (newRecord u tId tNow (JS.trim (firstNameValue form))
                        (JS.trim (lastNameValue form))
                        (JS.trim (agencyValue form)) (reasonValue form)
                        (JS.trim (otherDetailsValue form)))).
  { rewrite loadLog_saveLog. apply list_lookup_middle. reflexivity. }
  split; [exact L|]. split; [reflexivity|]. split.
  - intros Hnow. rewrite (lookup_ensureAutoSignOut _ now _ _ L). f_equal.
    apply applyAutoClose1_reached; [reflexivity | | exact Hnow].
    unfold newRecord, nowISO. cbn [signInAt].
    now apply getTime_toISOString.
  - intros Hnow. rewrite (lookup_ensureAutoSignOut _ now _ _ L). f_equal.
    apply applyAutoClose1_not_due. unfold due.
    rewrite newRecord_deadline by exact Ht.
    apply andb_false_intro2. apply Z.leb_gt. lia.
Qed.

(** Every record the application stores has a key that is not empty. *)
Lemma keyed_step st e :
  Forall keyed (loadLog st) -> Forall keyed (loadLog (step st e)).
Proof.
  intros H.
  assert (P : forall now, Forall keyed (loadLog (ensureAutoSignOut st now))).
  { intros now. rewrite loadLog_ensureAutoSignOut. apply Forall_fmap.
    eapply Forall_impl; [exact H|]. intros r Hr. unfold keyed, compose.
    now rewrite (proj2 (proj2 (proj2 (proj2 (proj2 (proj2 (proj2
                   (applyAutoClose1_frame now r)))))))). }
  destruct e as [now|u tId tNow form|tPolicy tNow fullName
                |now search| |confirmed now search]; simpl.
  - apply P.
  - destruct (signInSubmit_cases st u tId tNow form)
      as [(_ & -> & _)|((N1 & _) & ->)]; [exact H|].
    simpl fst. rewrite loadLog_saveLog. apply Forall_app. split; [exact H|].
    apply Forall_singleton. unfold keyed, newRecord. cbn [nameKey].
    now apply makeNameKey_nonempty.
  - destruct (signOutSubmit_cases st tPolicy tNow fullName)
      as [(_ & ->)|[(_ & _ & ->)|(_ & j & r & Hr & Hm & ->)]];
      simpl fst; try apply P.
    rewrite loadLog_saveLog. apply Forall_insert; [apply P|].
    unfold keyed. cbn [nameKey set_autoSignedOut set_signOutAt].
    exact (proj1 (Forall_lookup _ _) (P tPolicy) j r Hr).
  - apply P.
  - exact H.
  - destruct confirmed; [|exact H]. simpl.
    rewrite loadLog_ensureAutoSignOut. simpl. constructor.
Qed.

Lemma keyed_run st es :
  Forall keyed (loadLog st) -> Forall keyed (loadLog (run st es)).
Proof.
  revert st. induction es as [|e es IH]; intros st H; [exact H|].
  simpl. apply IH. now apply keyed_step.
Qed.

(** In a store built by the application from nothing, the key of a
    sign-out request that matches an open record is not empty. *)
Lemma reachable_match_nonempty es now key j r :
  loadLog (ensureAutoSignOut (run emptyStorage es) now) !! j = Some r ->
  openMatch key r -> key <> "".
Proof.
  intros Hj [_ <-].
  assert (K : Forall keyed (loadLog (run emptyStorage es)))
    by (apply keyed_run; constructor).
  apply (keyed_step _ (PageLoad now)) in K. simpl in K.
  exact (proj1 (Forall_lookup _ _) K j r Hj).
Qed.

End EndToEnd.

(** ** How the operations compose *)

Section Composition.

Implicit Types (st : Storage) (r : VisitRecord) (form : SignInForm).

Lemma applyAutoClose1_later now now' r :
  (now <= now')%Z ->
  applyAutoClose1 now' (applyAutoClose1 now r) = applyAutoClose1 now' r.
Proof.
  intros Hle. destruct (due now r) eqn:D.
  - destruct (applyAutoClose1_due now r D) as (d & Hd & Hdn & ->).
    assert (D' : due now' r = true).
    { unfold due in *. rewrite Hd in *. apply andb_prop in D as [Ho _].
      rewrite Ho. apply Z.leb_le. lia. }
    destruct (applyAutoClose1_due now' r D') as (d' & Hd' & _ & ->).
    rewrite Hd in Hd'. injection Hd' as <-.
    apply applyAutoClose1_not_due, due_closed, isOpen_false.
    apply toISOString_nonempty.
  - now rewrite (applyAutoClose1_not_due now r D).
Qed.

(** X1. The policy does not depend on how often it has run: a run at
    [now'] after a run at an earlier [now] leaves the collection a single
    run at [now'] leaves, and a second run at the same instant changes
    nothing at all, not even the write log. *)
Theorem ensureAutoSignOut_later_run st now now' :
  (now <= now')%Z ->
  loadLog (ensureAutoSignOut (ensureAutoSignOut st now) now')
  = loadLog (ensureAutoSignOut st now') /\
  ensureAutoSignOut (ensureAutoSignOut st now) now = ensureAutoSignOut st now.
Proof.
  intros Hle. split; [|apply ensureAutoSignOut_idempotent].
  rewrite !loadLog_ensureAutoSignOut, map_map.
  apply map_ext. intros r. now apply applyAutoClose1_later.
Qed.

Lemma ensureAutoSignOut_later_run_witness :
  (T1 <= T0 + 28801000)%Z /\
  loadLog (ensureAutoSignOut (ensureAutoSignOut twoVisits T1) (T0 + 28801000))
  = loadLog (ensureAutoSignOut twoVisits (T0 + 28801000)) /\
  ensureAutoSignOut (ensureAutoSignOut twoVisits T1) T1
  = ensureAutoSignOut twoVisits T1.
Proof.
  assert (H : (T1 <= T0 + 28801000)%Z) by (unfold T0, T1; lia).
  split; [exact H|].
  exact (ensureAutoSignOut_later_run twoVisits T1 (T0 + 28801000) H).
Defined.

(** X2. The timestamp [nowISO] writes for a clock reading is never empty
    (a record stamped with it is closed), is read back by the policy as
    that very reading, and differs from the timestamp of every other
    reading. *)
Theorem nowISO_read_back now :
  JS.isTimeValue now ->
  nowISO now <> "" /\
  JS.getTime (nowISO now) = Some now /\
  (forall now',
      JS.isTimeValue now' -> nowISO now = nowISO now' -> now = now').
Proof.
  intros H. unfold nowISO. split; [apply toISOString_nonempty|].
  split; [now apply getTime_toISOString|].
  intros now' H' E. now apply toISOString_inj.
Qed.

Lemma nowISO_read_back_witness :
  JS.isTimeValue T0 /\
  nowISO T0 <> "" /\
  JS.getTime (nowISO T0) = Some T0 /\
  (forall now',
      JS.isTimeValue now' -> nowISO T0 = nowISO now' -> T0 = now').
Proof.
  assert (H : JS.isTimeValue T0)
    by (unfold JS.isTimeValue, JS.maxTime, T0; lia).
  split; [exact H|]. exact (nowISO_read_back T0 H).
Defined.

(** X3. A visitor who signs in at [tIn] and does not sign out is found
    open by every run of the policy before [tIn] plus eight hours, and
    signed out at exactly [tIn] plus eight hours, flagged as automatic, by
    every run from that instant on. *)
Theorem visit_auto_closed_after_eight_hours st u tId tIn form now :
  JS.isTimeValue tIn ->
  failureOf (signInSubmit st u tId tIn form).2 = None ->
  exists r,
    loadLog (signInSubmit st u tId tIn form).1 !! length (loadLog st)
    = Some r /\
    signOutAt r = "" /\
    ((now < tIn + 8 * 60 * 60 * 1000)%Z ->
     loadLog (ensureAutoSignOut (signInSubmit st u tId tIn form).1 now)
       !! length (loadLog st)
     = Some r) /\
    ((now >= tIn + 8 * 60 * 60 * 1000)%Z ->
     loadLog (ensureAutoSignOut (signInSubmit st u tId tIn form).1 now)
       !! length (loadLog st)
     = Some (set_autoSignedOut true
               (set_signOutAt (JS.toISOString (tIn + 8 * 60 * 60 * 1000)) r))).
Proof.
  intros Ht Hok.
  destruct (signIn_then_policy st u tId tIn form now Ht Hok)
    as (r & H1 & H2 & H3 & H4).
  exists r. tauto.
Qed.

Lemma visit_auto_closed_after_eight_hours_witness :
  JS.isTimeValue T0 /\
  failureOf (signInSubmit emptyStorage None T0 T0 janeForm).2 = None /\
  exists r,
    loadLog (signInSubmit emptyStorage None T0 T0 janeForm).1
      !! length (loadLog emptyStorage)
    = Some r /\
    signOutAt r = "" /\
    ((T0 + 28800000 < T0 + 8 * 60 * 60 * 1000)%Z ->
     loadLog
       (ensureAutoSignOut (signInSubmit emptyStorage None T0 T0 janeForm).1
          (T0 + 28800000))
       !! length (loadLog emptyStorage)
     = Some r) /\
    ((T0 + 28800000 >= T0 + 8 * 60 * 60 * 1000)%Z ->
     loadLog
       (ensureAutoSignOut (signInSubmit emptyStorage None T0 T0 janeForm).1
          (T0 + 28800000))
       !! length (loadLog emptyStorage)
     = Some (set_autoSignedOut true
               (set_signOutAt (JS.toISOString (T0 + 8 * 60 * 60 * 1000)) r))).
Proof.
  assert (H : JS.isTimeValue T0)
    by (unfold JS.isTimeValue, JS.maxTime, T0; lia).
  assert (H' : failureOf (signInSubmit emptyStorage None T0 T0 janeForm).2
               = None) by reflexivity.
  split; [exact H|]. split; [exact H'|].
  exact (visit_auto_closed_after_eight_hours emptyStorage None T0 T0 janeForm
           (T0 + 28800000) H H').
Defined.

Lemma scanDown_last (records : list VisitRecord) r key :
  openMatch key r ->
  scanDown (records ++ [r]) key (length (records ++ [r]))
  = Some (length records).
Proof.
  intros Hm. rewrite length_app, Nat.add_1_r. simpl.
  rewrite list_lookup_middle by reflexivity.
  now rewrite (proj2 (openMatch_test key r) Hm).
Qed.

(** What a successful sign-in stores, and the log the policy reads back
    after it. *)
Lemma signInSubmit_ok st u tId tIn form :
  failureOf (signInSubmit st u tId tIn form).2 = None ->
  JS.trim (firstNameValue form) <> "" /\
  exists r,
    r = newRecord u tId tIn (JS.trim (firstNameValue form))
          (JS.trim (lastNameValue form)) (JS.trim (agencyValue form))
          (reasonValue form) (JS.trim (otherDetailsValue form)) /\
    (signInSubmit st u tId tIn form).1 = saveLog (loadLog st ++ [r]) st /\
    forall now,
      loadLog (ensureAutoSignOut (signInSubmit st u tId tIn form).1 now)
      = (loadLog (ensureAutoSignOut st now) ++ [applyAutoClose1 now r])%list.
Proof.
  intros Hok.
  destruct (signInSubmit_cases st u tId tIn form)
    as [(_ & _ & F)|((N1 & _) & E)]; [congruence|].
  split; [exact N1|]. eexists. split; [reflexivity|].
  rewrite E. simpl fst. split; [reflexivity|]. intros now.
  now rewrite !loadLog_ensureAutoSignOut, loadLog_saveLog, map_app.
Qed.

(** X4. Signing in and then out.  After a successful sign-in at [tIn], a
    sign-out request made before [tIn] plus eight hours under any spelling
    of the name with the same key succeeds and closes that very visit, the
    last record of the collection, at the time of the request, as an
    explicit sign-out; the other records are as the policy leaves them. *)
Theorem signIn_then_signOut st u tId tIn form tPolicy tOut fullName :
  JS.isTimeValue tIn ->
  failureOf (signInSubmit st u tId tIn form).2 = None ->
  normalizeName fullName
  = makeNameKey (firstNameValue form) (lastNameValue form) ->
  (tPolicy < tIn + 8 * 60 * 60 * 1000)%Z ->
  exists r,
    loadLog (signInSubmit st u tId tIn form).1 !! length (loadLog st)
    = Some r /\
    failureOf
      (signOutSubmit (signInSubmit st u tId tIn form).1 tPolicy tOut
         fullName).2 = None /\
    loadLog
      (signOutSubmit (signInSubmit st u tId tIn form).1 tPolicy tOut
         fullName).1 !! length (loadLog st)
    = Some (set_autoSignedOut false
              (set_signOutAt (JS.toISOString tOut) r)) /\
    forall j,
      j <> length (loadLog st) ->
      loadLog
        (signOutSubmit (signInSubmit st u tId tIn form).1 tPolicy tOut
           fullName).1 !! j
      = loadLog (ensureAutoSignOut st tPolicy) !! j.
Proof.
  intros Ht Hok Hkey Hbefore.
  destruct (signInSubmit_ok st u tId tIn form Hok) as (N1 & r & Hr & E & P).
  assert (Hd : deadline r = Some (tIn + 28800000)%Z)
    by (rewrite Hr; now apply newRecord_deadline).
  assert (Hnd : applyAutoClose1 tPolicy r = r).
  { apply applyAutoClose1_not_due. unfold due. rewrite Hd.
    apply andb_false_intro2, Z.leb_gt. lia. }
  assert (Hm : openMatch (normalizeName fullName) r).
  { split; [now rewrite Hr|].
    rewrite Hkey, <- makeNameKey_trim. now rewrite Hr. }
  assert (Hne : normalizeName fullName <> "").
  { rewrite Hkey, <- makeNameKey_trim. now apply makeNameKey_nonempty. }
  assert (L : length (loadLog (ensureAutoSignOut st tPolicy))
              = length (loadLog st))
    by (now rewrite loadLog_ensureAutoSignOut, length_map).
  exists r. split.
  { rewrite E, loadLog_saveLog. now apply list_lookup_middle. }
  unfold signOutSubmit. apply truthy_true in Hne. rewrite Hne.
  simpl negb. cbv iota. unfold findActiveByNameKey.
  rewrite P, Hnd, (scanDown_last _ r _ Hm). cbn [mbind option_bind].
  rewrite (closeAt_lookup _ _ r) by (apply list_lookup_middle; reflexivity).
  simpl fst. simpl snd. rewrite loadLog_saveLog, L. unfold nowISO.
  split; [reflexivity|]. split.
  - apply list_lookup_insert_eq. rewrite length_app, L. simpl. lia.
  - intros j Hj. rewrite list_lookup_insert_ne by congruence.
    destruct (decide (j < length (loadLog st))%nat) as [Hlt|Hge].
    + apply lookup_app_l. now rewrite L.
    + rewrite !lookup_ge_None_2; [reflexivity | rewrite L; lia |].
      rewrite length_app, L. simpl. lia.
Qed.

Lemma signIn_then_signOut_witness :
  JS.isTimeValue T1 /\
  failureOf (signInSubmit oneVisit None T1 T1 janeForm').2 = None /\
  normalizeName " JANE   doe"
  = makeNameKey (firstNameValue janeForm') (lastNameValue janeForm') /\
  (T2 < T1 + 8 * 60 * 60 * 1000)%Z /\
  exists r,
    loadLog (signInSubmit oneVisit None T1 T1 janeForm').1
      !! length (loadLog oneVisit)
    = Some r /\
    failureOf
      (signOutSubmit (signInSubmit oneVisit None T1 T1 janeForm').1 T2 T2
         " JANE   doe").2 = None /\
    loadLog
      (signOutSubmit (signInSubmit oneVisit None T1 T1 janeForm').1 T2 T2
         " JANE   doe").1 !! length (loadLog oneVisit)
    = Some (set_autoSignedOut false
              (set_signOutAt (JS.toISOString T2) r)) /\
    forall j,
      j <> length (loadLog oneVisit) ->
      loadLog
        (signOutSubmit (signInSubmit oneVisit None T1 T1 janeForm').1 T2 T2
           " JANE   doe").1 !! j
      = loadLog (ensureAutoSignOut oneVisit T2) !! j.
Proof.
  assert (H1 : JS.isTimeValue T1)
    by (unfold JS.isTimeValue, JS.maxTime, T1; lia).
  assert (H2 : failureOf (signInSubmit oneVisit None T1 T1 janeForm').2
               = None) by reflexivity.
  assert (H3 : normalizeName " JANE   doe"
               = makeNameKey (firstNameValue janeForm')
                   (lastNameValue janeForm')) by reflexivity.
  assert (H4 : (T2 < T1 + 8 * 60 * 60 * 1000)%Z) by (unfold T1, T2; lia).
  repeat (split; [assumption|]).
  exact (signIn_then_signOut oneVisit None T1 T1 janeForm' T2 T2
           " JANE   doe" H1 H2 H3 H4).
Defined.

(** X5. Signing out too late.  When the sign-out request for a visit
    signed in at [tIn] comes at [tIn] plus eight hours or later, the policy
    the handler runs first closes the visit at [tIn] plus eight hours;
    unless another open record has the key, the request then fails with
    the not-found alert and the visit keeps its automatic sign-out: the
    late request does not overwrite it. *)
Theorem signOut_after_deadline st u tId tIn form tPolicy tOut fullName :
  JS.isTimeValue tIn ->
  failureOf (signInSubmit st u tId tIn form).2 = None ->
  normalizeName fullName
  = makeNameKey (firstNameValue form) (lastNameValue form) ->
  (tPolicy >= tIn + 8 * 60 * 60 * 1000)%Z ->
  (forall j r0,
      loadLog (ensureAutoSignOut st tPolicy) !! j = Some r0 ->
      ~ openMatch (normalizeName fullName) r0) ->
  exists r,
    loadLog (signInSubmit st u tId tIn form).1 !! length (loadLog st)
    = Some r /\
    failureOf
      (signOutSubmit (signInSubmit st u tId tIn form).1 tPolicy tOut
         fullName).2 = Some NotFoundError /\
    loadLog
      (signOutSubmit (signInSubmit st u tId tIn form).1 tPolicy tOut
         fullName).1 !! length (loadLog st)
    = Some (set_autoSignedOut true
              (set_signOutAt (JS.toISOString (tIn + 8 * 60 * 60 * 1000)) r)).
Proof.
  intros Ht Hok Hkey Hafter Hnone.
  destruct (signInSubmit_ok st u tId tIn form Hok) as (N1 & r & Hr & E & P).
  assert (Hc : applyAutoClose1 tPolicy r
               = set_autoSignedOut true
                   (set_signOutAt
                      (JS.toISOString (tIn + 8 * 60 * 60 * 1000)) r)).
  { apply applyAutoClose1_reached; [now rewrite Hr | | exact Hafter].
    rewrite Hr. unfold newRecord, nowISO. cbn [signInAt].
    now apply getTime_toISOString. }
  assert (Hne : normalizeName fullName <> "").
  { rewrite Hkey, <- makeNameKey_trim. now apply makeNameKey_nonempty. }
  assert (L : length (loadLog (ensureAutoSignOut st tPolicy))
              = length (loadLog st))
    by (now rewrite loadLog_ensureAutoSignOut, length_map).
  exists r. split.
  { rewrite E, loadLog_saveLog. now apply list_lookup_middle. }
  destruct (signOutSubmit_cases (signInSubmit st u tId tIn form).1 tPolicy
              tOut fullName)
    as [(K & _)|[(_ & _ & ->)|(_ & i & r' & Hi & Hm & _)]].
  - contradiction.
  - simpl fst. simpl snd. split; [reflexivity|].
    rewrite P, Hc. apply list_lookup_middle. now rewrite L.
  - exfalso. rewrite P, Hc in Hi.
    destruct (decide (i < length (loadLog st))%nat) as [Hlt|Hge].
    + rewrite lookup_app_l in Hi by (now rewrite L).
      exact (Hnone i r' Hi Hm).
    + destruct (decide (i = length (loadLog st))) as [->|Hne'].
      * rewrite list_lookup_middle in Hi by (now rewrite L).
        injection Hi as <-. destruct Hm as [Hopen _].
        simpl in Hopen. now apply toISOString_nonempty in Hopen.
      * rewrite lookup_ge_None_2 in Hi; [discriminate|].
        rewrite length_app, L. simpl. lia.
Qed.

Lemma signOut_after_deadline_witness :
  JS.isTimeValue T0 /\
  failureOf (signInSubmit emptyStorage None T0 T0 janeForm).2 = None /\
  normalizeName "Jane Doe"
  = makeNameKey (firstNameValue janeForm) (lastNameValue janeForm) /\
  (T0 + 28800000 >= T0 + 8 * 60 * 60 * 1000)%Z /\
  (forall j r0,
      loadLog (ensureAutoSignOut emptyStorage (T0 + 28800000)) !! j = Some r0 ->
      ~ openMatch (normalizeName "Jane Doe") r0) /\
  exists r,
    loadLog (signInSubmit emptyStorage None T0 T0 janeForm).1
      !! length (loadLog emptyStorage)
    = Some r /\
    failureOf
      (signOutSubmit (signInSubmit emptyStorage None T0 T0 janeForm).1
         (T0 + 28800000) (T0 + 28800000) "Jane Doe").2 = Some NotFoundError /\
    loadLog
      (signOutSubmit (signInSubmit emptyStorage None T0 T0 janeForm).1
         (T0 + 28800000) (T0 + 28800000) "Jane Doe").1
      !! length (loadLog emptyStorage)
    = Some (set_autoSignedOut true
              (set_signOutAt (JS.toISOString (T0 + 8 * 60 * 60 * 1000)) r)).
Proof.
  assert (H1 : JS.isTimeValue T0)
    by (unfold JS.isTimeValue, JS.maxTime, T0; lia).
  assert (H2 : failureOf (signInSubmit emptyStorage None T0 T0 janeForm).2
               = None) by reflexivity.
  assert (H3 : normalizeName "Jane Doe"
               = makeNameKey (firstNameValue janeForm)
                   (lastNameValue janeForm)) by reflexivity.
  assert (H4 : (T0 + 28800000 >= T0 + 8 * 60 * 60 * 1000)%Z)
    by (unfold T0; lia).
  assert (H5 : forall j r0,
             loadLog (ensureAutoSignOut emptyStorage (T0 + 28800000)) !! j
             = Some r0 ->
             ~ openMatch (normalizeName "Jane Doe") r0).
  { intros j r0 Hj. destruct j; discriminate Hj. }
  repeat (split; [assumption|]).
  exact (signOut_after_deadline emptyStorage None T0 T0 janeForm
           (T0 + 28800000) (T0 + 28800000) "Jane Doe" H1 H2 H3 H4 H5).
Defined.

End Composition.

(** ** The key as a canonical form *)

Section CanonicalKey.

Implicit Types (s t : string) (k : Scan) (c : ascii).

Lemma squeeze_toLowerCase k s :
  squeeze k (JS.toLowerCase s) = JS.toLowerCase (squeeze k s).
Proof.
  revert k; induction s as [|c s IH]; intros k; simpl; [reflexivity|].
  rewrite toLowerChar_not_space.
  destruct (JS.isWhiteSpace c); [|destruct k]; simpl; now rewrite IH.
Qed.

Lemma squeeze_squeeze s :
  squeeze AtStart (squeeze AtStart s) = squeeze AtStart s /\
  squeeze InWord (squeeze InWord s) = squeeze InWord s /\
  squeeze InWord (squeeze InGap s) = squeeze InGap s.
Proof.
  induction s as [|c s (IH1 & IH2 & IH3)]; [repeat split|].
  simpl. destruct (JS.isWhiteSpace c) eqn:E; simpl.
  - repeat split; assumption.
  - repeat split; simpl; rewrite ?E; simpl; rewrite ?E; now rewrite IH2.
Qed.

Lemma squeeze_space k s t c :
  JS.isWhiteSpace c = true ->
  squeeze k (s ++ String c t)
  = squeeze k s ++ squeeze (afterSpace (scanState k s)) t.
Proof. intros E. rewrite squeeze_app. simpl. now rewrite E. Qed.

(** X6. The key is a canonical form of the name.  Normalizing a key gives
    the key again; the key of a text depends on the text only up to the
    case of its letters, up to white space at its ends, up to which white
    space character separates two words, and up to how many of them do.
    The key of a first and a last name does not keep where the first name
    ends. *)
Theorem normalizeName_canonical :
  (forall s, normalizeName (normalizeName s) = normalizeName s) /\
  (forall s t,
      JS.toLowerCase t = JS.toLowerCase s ->
      normalizeName t = normalizeName s) /\
  (forall s, normalizeName (JS.trim s) = normalizeName s) /\
  (forall s t c,
      JS.isWhiteSpace c = true ->
      normalizeName (s ++ String c t) = normalizeName (s ++ " " ++ t)) /\
  (forall s t c c',
      JS.isWhiteSpace c = true -> JS.isWhiteSpace c' = true ->
      normalizeName (s ++ String c (String c' t))
      = normalizeName (s ++ String c t)) /\
  (forall first middle last,
      makeNameKey (first ++ " " ++ middle) last
      = makeNameKey first (middle ++ " " ++ last)).
Proof.
  split; [|split; [|split; [|split; [|split]]]].
  - intros s. rewrite !normalizeName_squeeze.
    rewrite squeeze_toLowerCase, (proj1 (squeeze_squeeze s)).
    apply toLowerCase_idem.
  - intros s t E. rewrite !normalizeName_squeeze, <- !squeeze_toLowerCase.
    now rewrite E.
  - intros s. rewrite !normalizeName_squeeze.
    now rewrite squeeze_trim by discriminate.
  - intros s t c E. rewrite !normalizeName_squeeze. f_equal.
    change (s ++ " " ++ t) with (s ++ String " " t).
    now rewrite (squeeze_space _ _ _ c E), (squeeze_space _ _ _ " " eq_refl).
  - intros s t c c' E E'. rewrite !normalizeName_squeeze. f_equal.
    rewrite !(squeeze_space _ _ _ c E). f_equal.
    simpl. rewrite E'. now rewrite afterSpace_idem.
  - intros first middle last. unfold makeNameKey.
    now rewrite !app_assoc'.
Qed.

End CanonicalKey.

(** ** Reading the export back *)

Section CsvRoundTrip.

Implicit Types (v field rest : string) (row fs : list string)
  (rows : list (list string)).

Lemma csvRead_delimited field row rest :
  delimited rest ->
  csvRead FieldStart field row rest = csvRead Unquoted field row rest /\
  csvRead QuoteSeen field row rest = csvRead Unquoted field row rest.
Proof.
  intros [->|[r [->| ->]]]; split; reflexivity.
Qed.

Lemma csvRead_plain v field row rest :
  testSpecial v = false ->
  csvRead Unquoted field row (v ++ rest)
  = csvRead Unquoted (field ++ v) row rest.
Proof.
  revert field. induction v as [|c v IH]; intros field; simpl.
  - intros _. now rewrite app_empty_r.
  - intros H. apply orb_false_elim in H as [H Hv].
    apply orb_false_elim in H as [H H3].
    apply orb_false_elim in H as [H1 H2].
    rewrite H1, H2, H3, (IH _ Hv), app_assoc'. reflexivity.
Qed.

Lemma csvRead_quoted v field row rest :
  csvRead Quoted field row (replaceQuotes v ++ String DQUOTE rest)
  = csvRead QuoteSeen (field ++ v) row rest.
Proof.
  revert field. induction v as [|c v IH]; intros field; simpl.
  - now rewrite app_empty_r.
  - destruct (Ascii.eqb c DQUOTE) eqn:E; simpl.
    + apply Ascii.eqb_eq in E. subst c.
      rewrite IH, app_assoc'. reflexivity.
    + rewrite E, IH, app_assoc'. reflexivity.
Qed.

(** An escaped field is read back as the field. *)
Lemma csvRead_escapeCSV v row rest :
  delimited rest ->
  csvRead FieldStart "" row (escapeCSV v ++ rest)
  = csvRead Unquoted v row rest.
Proof.
  intros D. unfold escapeCSV. destruct (testSpecial v) eqn:T.
  - change (String DQUOTE (replaceQuotes v ++ String DQUOTE "") ++ rest)
      with (String DQUOTE ((replaceQuotes v ++ String DQUOTE "") ++ rest)).
    rewrite app_assoc'. simpl String.append at 2.
    change (csvRead FieldStart "" row
              (String DQUOTE (replaceQuotes v ++ String DQUOTE rest)))
      with (csvRead Quoted "" row (replaceQuotes v ++ String DQUOTE rest)).
    rewrite csvRead_quoted. simpl String.append.
    apply (csvRead_delimited v row rest D).
  - destruct v as [|c v]; [apply (csvRead_delimited "" row rest D)|].
    simpl in T. apply orb_false_elim in T as [T Tv].
    apply orb_false_elim in T as [T T3].
    apply orb_false_elim in T as [T1 T2].
    simpl. rewrite T1, T2, T3. now apply csvRead_plain.
Qed.

Lemma csvRead_comma field row rest :
  csvRead Unquoted field row (String COMMA rest)
  = csvRead FieldStart "" (row ++ [field])%list rest.
Proof. reflexivity. Qed.

Lemma last_cons fs v w : List.last (w :: fs) v = List.last fs w.
Proof.
  revert v w. induction fs as [|a fs IH]; intros v w; [reflexivity|].
  change (List.last (w :: a :: fs) v) with (List.last (a :: fs) v).
  now rewrite (IH v a), (IH w a).
Qed.

(** A line of escaped fields is read back as the fields. *)
Lemma csvRead_line v fs row rest :
  delimited rest ->
  csvRead FieldStart "" row (JS.join "," (List.map escapeCSV (v :: fs)) ++ rest)
  = csvRead Unquoted (List.last fs v) (row ++ removelast (v :: fs))%list rest.
Proof.
  intros D. revert v row. induction fs as [|w fs IH]; intros v row.
  - simpl. rewrite app_nil_r. now apply csvRead_escapeCSV.
  - change (JS.join "," (List.map escapeCSV (v :: w :: fs)))
      with (escapeCSV v ++ "," ++ JS.join "," (List.map escapeCSV (w :: fs))).
    rewrite !app_assoc'.
    rewrite csvRead_escapeCSV by (right; eexists; left; reflexivity).
    change ("," ++ JS.join "," (List.map escapeCSV (w :: fs)) ++ rest)
      with (String COMMA
              (JS.join "," (List.map escapeCSV (w :: fs)) ++ rest)).
    rewrite csvRead_comma, IH, (last_cons fs v w).
    change (removelast (v :: w :: fs)) with (v :: removelast (w :: fs)).
    now rewrite <- app_assoc.
Qed.

Lemma removelast_last v fs :
  (removelast (v :: fs) ++ [List.last fs v])%list = v :: fs.
Proof.
  revert v. induction fs as [|w fs IH]; intros v; [reflexivity|].
  change (removelast (v :: w :: fs)) with (v :: removelast (w :: fs)).
  rewrite (last_cons fs v w). cbn [app]. f_equal. apply IH.
Qed.

(** A text of lines of escaped fields is read back as the rows. *)
Lemma csvRead_lines v fs rows :
  Forall (fun r => r <> []) rows ->
  readCSV
    (JS.join (String LF "")
       (List.map (fun r => JS.join "," (List.map escapeCSV r))
          ((v :: fs) :: rows)))
  = (v :: fs) :: rows.
Proof.
  unfold readCSV. intros H. revert v fs.
  induction H as [|r rows Hr _ IH]; intros v fs.
  - change (JS.join (String LF "") (List.map ?f [v :: fs]))
      with (f (v :: fs)).
    cbv beta.
    replace (JS.join "," (List.map escapeCSV (v :: fs)))
      with (JS.join "," (List.map escapeCSV (v :: fs)) ++ "")
      by apply app_empty_r.
    rewrite csvRead_line by (now left).
    change (csvRead Unquoted ?f ?row "") with [(row ++ [f])%list].
    cbn [app]. now rewrite removelast_last.
  - destruct r as [|w ws]; [contradiction|].
    change (JS.join (String LF "")
              (List.map ?f ((v :: fs) :: (w :: ws) :: rows)))
      with (f (v :: fs) ++ String LF "" ++
            JS.join (String LF "") (List.map f ((w :: ws) :: rows))).
    cbv beta.
    change (String LF "" ++ ?x) with (String LF x).
    rewrite csvRead_line by (right; eexists; right; reflexivity).
    change (csvRead Unquoted ?f ?row (String LF ?x))
      with ((row ++ [f])%list :: csvRead FieldStart "" [] x).
    rewrite IH. cbn [app]. now rewrite removelast_last.
Qed.

Lemma toCSV_lines (records : list VisitRecord) :
  toCSV records
  = JS.join (String LF "")
      (List.map (fun r => JS.join "," (List.map escapeCSV r))
         (header :: List.map fieldsOf records)).
Proof.
  unfold toCSV. rewrite pushLines_app. simpl. f_equal. f_equal.
  rewrite List.map_map. reflexivity.
Qed.

(** X7. The export is read back in full.  A reader of comma separated
    values finds in the text of [toCSV] the header fields and then, record
    by record and in stored order, the eight exported values exactly as
    stored, whatever commas, double quotes and line feeds they hold.  Hence
    two collections with the same export have the same exported values. *)
Theorem toCSV_read_back (records : list VisitRecord) :
  readCSV (toCSV records) = header :: List.map fieldsOf records /\
  (forall records',
      toCSV records = toCSV records' ->
      List.map fieldsOf records = List.map fieldsOf records').
Proof.
  assert (R : forall l : list VisitRecord,
             readCSV (toCSV l) = header :: List.map fieldsOf l).
  { intros l. rewrite toCSV_lines. unfold header at 1.
    apply csvRead_lines. apply Forall_forall. intros r Hr.
    apply list_elem_of_In, in_map_iff in Hr as (x & <- & _). discriminate. }
  split; [apply R|].
  intros records' E. pose proof (R records) as R1. rewrite E, R in R1.
  now injection R1.
Qed.

End CsvRoundTrip.

(** ** Invariants of the stored records *)

Section Invariants.

Implicit Types (st : Storage) (r : VisitRecord) (e : Event)
  (P : VisitRecord -> Prop).

Lemma sameVisit_refl r : sameVisit r r.
Proof. repeat split. Qed.

Lemma sameVisit_trans r1 r2 r3 :
  sameVisit r1 r2 -> sameVisit r2 r3 -> sameVisit r1 r3.
Proof.
  unfold sameVisit. intros (?&?&?&?&?&?&?&?) (?&?&?&?&?&?&?&?).
  repeat split; congruence.
Qed.

Lemma sameVisit_policy now r : sameVisit r (applyAutoClose1 now r).
Proof. exact (applyAutoClose1_frame now r). Qed.

Lemma policy_open now r :
  signOutAt (applyAutoClose1 now r) = "" -> applyAutoClose1 now r = r.
Proof.
  intros H. destruct (due now r) eqn:D.
  - destruct (applyAutoClose1_due now r D) as (d & _ & _ & E).
    rewrite E in H. simpl in H. now apply toISOString_nonempty in H.
  - now apply applyAutoClose1_not_due.
Qed.

(** One event keeps every record in its place, as the same visit, and
    unchanged as long as it is open. *)
Lemma step_keeps_visit st e i r :
  isConfirmedClear e = false ->
  loadLog st !! i = Some r ->
  exists r',
    loadLog (step st e) !! i = Some r' /\ sameVisit r r' /\
    (signOutAt r' = "" -> r' = r).
Proof.
  intros Hc Hi.
  assert (Pol : forall now,
             exists r',
               loadLog (ensureAutoSignOut st now) !! i = Some r' /\
               sameVisit r r' /\ (signOutAt r' = "" -> r' = r)).
  { intros now. exists (applyAutoClose1 now r).
    split; [now apply lookup_ensureAutoSignOut|].
    split; [apply sameVisit_policy | apply policy_open]. }
  destruct e as [now|u tId tNow form|tPolicy tNow fullName
                |now search| |confirmed now search]; simpl.
  - apply Pol.
  - exists r. split; [now apply kept_by_signIn|].
    split; [apply sameVisit_refl | reflexivity].
  - destruct (Pol tPolicy) as (r1 & H1 & S1 & O1).
    destruct (signOutSubmit_cases st tPolicy tNow fullName)
      as [(_ & ->)|[(_ & _ & ->)|(_ & j & rj & Hj & Hm & ->)]];
      simpl fst; try (exists r1; tauto).
    rewrite loadLog_saveLog. destruct (decide (j = i)) as [->|Hne].
    + rewrite H1 in Hj. injection Hj as <-. eexists. split.
      * apply list_lookup_insert_eq. now apply lookup_lt_Some in H1.
      * split.
        -- apply (sameVisit_trans _ _ _ S1). repeat split.
        -- simpl. intros H. now apply toISOString_nonempty in H.
    + exists r1. rewrite list_lookup_insert_ne by exact Hne. tauto.
  - apply Pol.
  - exists r. split; [exact Hi|].
    split; [apply sameVisit_refl | reflexivity].
  - destruct confirmed; [discriminate|]. exists r. split; [exact Hi|].
    split; [apply sameVisit_refl | reflexivity].
Qed.

Lemma step_length st e :
  isConfirmedClear e = false ->
  (length (loadLog st) <= length (loadLog (step st e)))%nat.
Proof.
  intros Hc.
  assert (Pol : forall now,
             length (loadLog (ensureAutoSignOut st now))
             = length (loadLog st))
    by (intros now; now rewrite loadLog_ensureAutoSignOut, length_map).
  destruct e as [now|u tId tNow form|tPolicy tNow fullName
                |now search| |confirmed now search]; simpl.
  - now rewrite Pol.
  - destruct (signInSubmit_cases st u tId tNow form)
      as [(_ & -> & _)|(_ & ->)]; [reflexivity|].
    simpl fst. rewrite loadLog_saveLog, length_app. lia.
  - destruct (signOutSubmit_cases st tPolicy tNow fullName)
      as [(_ & ->)|[(_ & _ & ->)|(_ & j & rj & Hj & Hm & ->)]];
      simpl fst; rewrite ?loadLog_saveLog, ?length_insert, Pol; reflexivity.
  - now rewrite Pol.
  - reflexivity.
  - destruct confirmed; [discriminate | reflexivity].
Qed.

(** X8. The log is append-only.  Through every sequence of events in which
    the log is not cleared, the collection never gets shorter and every
    record keeps its position, its id, names, agency, reason, details,
    sign-in time and key; a record that is still open at the end has not
    been changed at all. *)
Theorem log_is_append_only st es :
  Forall (fun e => isConfirmedClear e = false) es ->
  (length (loadLog st) <= length (loadLog (run st es)))%nat /\
  forall i r,
    loadLog st !! i = Some r ->
    exists r',
      loadLog (run st es) !! i = Some r' /\ sameVisit r r' /\
      (signOutAt r' = "" -> r' = r).
Proof.
  intros Hes. revert st. induction Hes as [|e es He _ IH]; intros st.
  - split; [reflexivity|]. intros i r Hi. exists r.
    split; [exact Hi|]. split; [apply sameVisit_refl | reflexivity].
  - simpl. destruct (IH (step st e)) as [L K]. split.
    + pose proof (step_length st e He). lia.
    + intros i r Hi.
      destruct (step_keeps_visit st e i r He Hi) as (r1 & H1 & S1 & O1).
      destruct (K i r1 H1) as (r2 & H2 & S2 & O2).
      exists r2. split; [exact H2|].
      split; [exact (sameVisit_trans _ _ _ S1 S2)|].
      intros Hopen. specialize (O2 Hopen). subst r2. now apply O1.
Qed.

Lemma log_is_append_only_witness :
  Forall (fun e => isConfirmedClear e = false)
    [SignOutSubmitted T2 T2 "Jane Doe"; PageLoad (T0 + 28800000)] /\
  (length (loadLog twoVisits)
   <= length
        (loadLog
           (run twoVisits
              [SignOutSubmitted T2 T2 "Jane Doe";
               PageLoad (T0 + 28800000)])))%nat /\
  forall i r,
    loadLog twoVisits !! i = Some r ->
    exists r',
      loadLog
        (run twoVisits
           [SignOutSubmitted T2 T2 "Jane Doe"; PageLoad (T0 + 28800000)])
        !! i = Some r' /\
      sameVisit r r' /\ (signOutAt r' = "" -> r' = r).
Proof.
  assert (H : Forall (fun e => isConfirmedClear e = false)
                [SignOutSubmitted T2 T2 "Jane Doe";
                 PageLoad (T0 + 28800000)])
    by (repeat constructor).
  split; [exact H|].
  exact (log_is_append_only twoVisits
           [SignOutSubmitted T2 T2 "Jane Doe"; PageLoad (T0 + 28800000)] H).
Defined.

(** A property of records that the three writes of the application
    establish or keep holds of every record after every event. *)
Lemma step_preserves P st e :
  (forall u tId tNow form,
      JS.trim (firstNameValue form) <> "" ->
      JS.trim (lastNameValue form) <> "" ->
      JS.trim (agencyValue form) <> "" ->
      (reasonValue form = "Other" ->
       JS.trim (otherDetailsValue form) <> "") ->
      P (newRecord u tId tNow (JS.trim (firstNameValue form))
           (JS.trim (lastNameValue form)) (JS.trim (agencyValue form))
           (reasonValue form) (JS.trim (otherDetailsValue form)))) ->
  (forall now r, P r -> P (applyAutoClose1 now r)) ->
  (forall t r,
      P r -> signOutAt r = "" ->
      P (set_autoSignedOut false (set_signOutAt (JS.toISOString t) r))) ->
  Forall P (loadLog st) -> Forall P (loadLog (step st e)).
Proof.
  intros Hnew Hpol Hout H.
  assert (Pol : forall now, Forall P (loadLog (ensureAutoSignOut st now))).
  { intros now. rewrite loadLog_ensureAutoSignOut. apply Forall_fmap.
    eapply Forall_impl; [exact H|]. intros r Hr. apply Hpol, Hr. }
  destruct e as [now|u tId tNow form|tPolicy tNow fullName
                |now search| |confirmed now search]; simpl.
  - apply Pol.
  - destruct (signInSubmit_cases st u tId tNow form)
      as [(_ & -> & _)|((N1 & N2 & N3 & N4) & ->)]; [exact H|].
    simpl fst. rewrite loadLog_saveLog. apply Forall_app. split; [exact H|].
    apply Forall_singleton. now apply Hnew.
  - destruct (signOutSubmit_cases st tPolicy tNow fullName)
      as [(_ & ->)|[(_ & _ & ->)|(_ & j & r & Hr & Hm & ->)]];
      simpl fst; try apply Pol.
    rewrite loadLog_saveLog. apply Forall_insert; [apply Pol|].
    apply Hout; [|exact (proj1 Hm)].
    exact (proj1 (Forall_lookup _ _) (Pol tPolicy) j r Hr).
  - apply Pol.
  - exact H.
  - destruct confirmed; [|exact H]. simpl.
    rewrite loadLog_ensureAutoSignOut. simpl. constructor.
Qed.

Lemma run_preserves P st es :
  (forall u tId tNow form,
      JS.trim (firstNameValue form) <> "" ->
      JS.trim (lastNameValue form) <> "" ->
      JS.trim (agencyValue form) <> "" ->
      (reasonValue form = "Other" ->
       JS.trim (otherDetailsValue form) <> "") ->
      P (newRecord u tId tNow (JS.trim (firstNameValue form))
           (JS.trim (lastNameValue form)) (JS.trim (agencyValue form))
           (reasonValue form) (JS.trim (otherDetailsValue form)))) ->
  (forall now r, P r -> P (applyAutoClose1 now r)) ->
  (forall t r,
      P r -> signOutAt r = "" ->
      P (set_autoSignedOut false (set_signOutAt (JS.toISOString t) r))) ->
  Forall P (loadLog st) -> Forall P (loadLog (run st es)).
Proof.
  intros Hnew Hpol Hout. revert st.
  induction es as [|e es IH]; intros st H; [exact H|].
  simpl. apply IH. now apply step_preserves.
Qed.

Lemma allWhiteSpace_trimEnd s : allWhiteSpace (JS.trimEnd s) = allWhiteSpace s.
Proof.
  induction s as [|c s IH]; [reflexivity|].
  rewrite trimEnd_cons.
  change (allWhiteSpace (String c s))
    with (JS.isWhiteSpace c && allWhiteSpace s).
  destruct (JS.isWhiteSpace c && allWhiteSpace s) eqn:E; [reflexivity|].
  simpl. now rewrite IH.
Qed.

Lemma trimEnd_idem s : JS.trimEnd (JS.trimEnd s) = JS.trimEnd s.
Proof.
  induction s as [|c s IH]; [reflexivity|].
  rewrite trimEnd_cons.
  destruct (JS.isWhiteSpace c && allWhiteSpace s) eqn:E; [reflexivity|].
  rewrite trimEnd_cons, allWhiteSpace_trimEnd, E. now rewrite IH.
Qed.

(** Trimming a trimmed text changes nothing. *)
Lemma trim_idem s : JS.trim (JS.trim s) = JS.trim s.
Proof.
  unfold JS.trim.
  destruct (trimStart_cases s) as [[_ ->]|(_ & c & t & -> & E)];
    [reflexivity|].
  destruct (trimEnd_String c t E) as [t' Ht]. rewrite Ht.
  simpl JS.trimStart. rewrite E, <- Ht. apply trimEnd_idem.
Qed.

Lemma validRecord_sameVisit r r' :
  sameVisit r r' -> validRecord r -> validRecord r'.
Proof.
  unfold sameVisit, validRecord.
  intros (_ & -> & -> & -> & -> & -> & _ & ->). tauto.
Qed.

Lemma validRecord_newRecord u tId tNow form :
  JS.trim (firstNameValue form) <> "" ->
  JS.trim (lastNameValue form) <> "" ->
  JS.trim (agencyValue form) <> "" ->
  (reasonValue form = "Other" -> JS.trim (otherDetailsValue form) <> "") ->
  validRecord
    (newRecord u tId tNow (JS.trim (firstNameValue form))
       (JS.trim (lastNameValue form)) (JS.trim (agencyValue form))
       (reasonValue form) (JS.trim (otherDetailsValue form))).
Proof.
  intros N1 N2 N3 N4. unfold validRecord, newRecord. simpl.
  rewrite !trim_idem. repeat (split; [assumption || reflexivity|]).
  split; [|split; [|split]].
  - intros R. rewrite R. simpl. rewrite trim_idem. split; [now apply N4|].
    reflexivity.
  - intros R. apply String.eqb_neq in R. now rewrite R.
  - reflexivity.
  - now apply makeNameKey_nonempty.
Qed.

(** X9. What is stored has passed validation.  If every stored record has
    a trimmed first name, last name and agency that are not empty, details
    exactly when its reason is Other, and the key of its names, not empty,
    then so has every stored record after any sequence of events; this
    holds in particular of every log built from nothing. *)
Theorem stored_records_stay_valid st es :
  Forall validRecord (loadLog st) ->
  Forall validRecord (loadLog (run st es)).
Proof.
  apply run_preserves.
  - intros u tId tNow form. apply validRecord_newRecord.
  - intros now r. apply validRecord_sameVisit, sameVisit_policy.
  - intros t r H _. revert H. apply validRecord_sameVisit. repeat split.
Qed.

Lemma stored_records_stay_valid_witness :
  Forall validRecord (loadLog emptyStorage) /\
  Forall validRecord
    (loadLog
       (run emptyStorage
          [SignInSubmitted None T0 T0 janeForm;
           SignInSubmitted None T1 T1 janeForm';
           SignOutSubmitted T2 T2 "Jane Doe"])).
Proof.
  assert (H : Forall validRecord (loadLog emptyStorage)) by constructor.
  split; [exact H|].
  exact (stored_records_stay_valid emptyStorage
           [SignInSubmitted None T0 T0 janeForm;
            SignInSubmitted None T1 T1 janeForm';
            SignOutSubmitted T2 T2 "Jane Doe"] H).
Defined.




End Invariants.

(** ** Edge cases of the store and of the records page *)

Section Edges.

Implicit Types (st : Storage) (r : VisitRecord).

(** X11. Nothing stored.  While the key is absent from [localStorage], the
    log reads as empty; the policy, the records view and the export write
    nothing (the view shows no row, the export is the header row alone);
    and every sign-out fails and leaves the key absent.  Only a sign-in
    creates the key. *)
Theorem absent_key_reads_empty st :
  item st = None ->
  loadLog st = [] /\
  (forall now, ensureAutoSignOut st now = st) /\
  (forall now search, render st now search = (st, [])) /\
  exportClick st = headerRow /\
  (forall tPolicy tNow fullName,
      (signOutSubmit st tPolicy tNow fullName).1 = st /\
      failureOf (signOutSubmit st tPolicy tNow fullName).2 <> None).
Proof.
  intros H.
  assert (L : loadLog st = []) by (unfold loadLog; now rewrite H).
  assert (P : forall now, ensureAutoSignOut st now = st)
    by (intros now; rewrite ensureAutoSignOut_eq, L; reflexivity).
  split; [exact L|]. split; [exact P|]. split; [|split].
  - intros now search. unfold render. rewrite P, L. simpl.
    now destruct (JS.truthy (JS.toLowerCase (JS.trim search))).
  - unfold exportClick. now rewrite L.
  - intros tPolicy tNow fullName.
    destruct (signOutSubmit_cases st tPolicy tNow fullName)
      as [(_ & ->)|[(_ & _ & ->)|(_ & i & r & Hi & _)]].
    + rewrite P. split; [reflexivity | discriminate].
    + rewrite P. split; [reflexivity | discriminate].
    + rewrite P, L in Hi. destruct i; discriminate Hi.
Qed.

Lemma absent_key_reads_empty_witness :
  item emptyStorage = None /\
  loadLog emptyStorage = [] /\
  (forall now, ensureAutoSignOut emptyStorage now = emptyStorage) /\
  (forall now search, render emptyStorage now search = (emptyStorage, [])) /\
  exportClick emptyStorage = headerRow /\
  (forall tPolicy tNow fullName,
      (signOutSubmit emptyStorage tPolicy tNow fullName).1 = emptyStorage /\
      failureOf (signOutSubmit emptyStorage tPolicy tNow fullName).2 <> None).
Proof.
  assert (H : item emptyStorage = None) by reflexivity.
  split; [exact H|]. exact (absent_key_reads_empty emptyStorage H).
Defined.

(** X12. Clearing the log.  A confirmed clear removes the key with one
    [removeItem] and nothing else, whatever was stored, and the table it
    renders is empty whatever the filter; the log then reads as empty, and
    the next successful sign-in starts a log of one record.  A clear that
    is not confirmed changes nothing. *)
Theorem clearClick_empties_log st now search :
  clearClick st true now search = (removeItem st, Some []) /\
  loadLog (clearClick st true now search).1 = [] /\
  clearClick st false now search = (st, None) /\
  (forall u tId tNow form,
      failureOf
        (signInSubmit (clearClick st true now search).1 u tId tNow form).2
      = None ->
      length
        (loadLog
           (signInSubmit (clearClick st true now search).1 u tId tNow form).1)
      = 1%nat).
Proof.
  assert (E : clearClick st true now search = (removeItem st, Some [])).
  { unfold clearClick, render.
    assert (P : ensureAutoSignOut (removeItem st) now = removeItem st)
      by (rewrite ensureAutoSignOut_eq; reflexivity).
    rewrite P. simpl.
    now destruct (JS.truthy (JS.toLowerCase (JS.trim search))). }
  rewrite E. split; [reflexivity|]. split; [reflexivity|].
  split; [reflexivity|].
  intros u tId tNow form Hok. simpl fst in *.
  destruct (signInSubmit_cases (removeItem st) u tId tNow form)
    as [(_ & _ & F)|(_ & ->)]; [congruence|]. reflexivity.
Qed.

(** X13. The sign-out lookup.  [findActiveByNameKey] answers [null]
    exactly when no stored record is open with the key; otherwise it
    answers the stored array and a position within it that holds an open
    record with the key, no later position holding one. *)
Theorem findActiveByNameKey_contract st key :
  (findActiveByNameKey st key = None <->
   forall j r, loadLog st !! j = Some r -> ~ openMatch key r) /\
  (forall records i,
      findActiveByNameKey st key = Some (records, i) ->
      records = loadLog st /\ (i < length records)%nat /\
      (exists r, records !! i = Some r /\ openMatch key r) /\
      (forall j r,
          (i < j)%nat -> records !! j = Some r -> ~ openMatch key r)).
Proof.
  split; [apply findActiveByNameKey_None|].
  intros records i F.
  destruct (findActiveByNameKey_Some st key records i F)
    as (-> & (r & Hr & Hm) & Hlast).
  split; [reflexivity|]. split; [now apply lookup_lt_Some in Hr|].
  split; [eauto | exact Hlast].
Qed.

Lemma filter_sublist {A} (p p' : A -> bool) (l : list A) :
  (forall x, p' x = true -> p x = true) ->
  sublist (List.filter p' l) (List.filter p l).
Proof.
  intros H. induction l as [|x l IH]; simpl; [constructor|].
  destruct (p' x) eqn:E'.
  - rewrite (H x E'). now constructor.
  - destruct (p x); [now constructor | exact IH].
Qed.

Lemma substring_trans a b c : substring a b -> substring b c -> substring a c.
Proof.
  intros (p1 & q1 & ->) (p2 & q2 & ->).
  exists (p2 ++ p1), (q1 ++ q2). now rewrite !app_assoc'.
Qed.

Lemma substring_empty a : substring a "" -> a = "".
Proof.
  intros (p & q & H). destruct p; [|discriminate].
  destruct a; [reflexivity | discriminate].
Qed.

(** X14. Narrowing the filter.  When the filter text of one view occurs,
    trimmed and case ignored, in the filter text of another, every row of
    the second view is a row of the first, in the same order: typing more
    of a word never brings rows in.  In particular every view is, in order,
    part of the unfiltered view. *)
Theorem render_narrowing st now search search' :
  substring (JS.toLowerCase (JS.trim search))
    (JS.toLowerCase (JS.trim search')) ->
  sublist (render st now search').2 (render st now search).2 /\
  sublist (render st now search').2
    (rev (loadLog (ensureAutoSignOut st now))).
Proof.
  intros S. unfold render. simpl snd.
  set (l := rev (loadLog (ensureAutoSignOut st now))).
  set (q := JS.toLowerCase (JS.trim search)) in *.
  set (q' := JS.toLowerCase (JS.trim search')) in *.
  assert (U : forall (p : VisitRecord -> bool),
             sublist (List.filter p l) l).
  { intros p. rewrite <- (filter_all (fun _ => true) l) at 2 by reflexivity.
    now apply filter_sublist. }
  split.
  - destruct (JS.truthy q') eqn:T'.
    + destruct (JS.truthy q) eqn:T; [|apply U].
      apply filter_sublist. intros r. rewrite !includes_spec.
      now apply substring_trans.
    + apply truthy_false in T'. rewrite T' in S.
      apply substring_empty in S. now rewrite S.
  - destruct (JS.truthy q'); [apply U | reflexivity].
Qed.

Lemma render_narrowing_witness :
  substring (JS.toLowerCase (JS.trim " oth"))
    (JS.toLowerCase (JS.trim "Other Co ")) /\
  sublist (render twoVisits T2 "Other Co ").2 (render twoVisits T2 " oth").2 /\
  sublist (render twoVisits T2 "Other Co ").2
    (rev (loadLog (ensureAutoSignOut twoVisits T2))).
Proof.
  assert (H : substring (JS.toLowerCase (JS.trim " oth"))
                (JS.toLowerCase (JS.trim "Other Co ")))
    by (exists "", "er co"; reflexivity).
  split; [exact H|].
  exact (render_narrowing twoVisits T2 " oth" "Other Co " H).
Defined.

End Edges.

(** ** Ids and file names *)

Section IdsAndNames.

Local Open Scope Z_scope.

Lemma valueOf_app acc s t : valueOf acc (s ++ t) = valueOf (valueOf acc s) t.
Proof.
  revert acc. induction s as [|c s IH]; intros acc; simpl; [reflexivity|].
  apply IH.
Qed.

Lemma valueOf_digitChar acc d :
  0 <= d <= 9 -> valueOf acc (String (JS.digitChar d) "") = acc * 10 + d.
Proof.
  intros H.
  assert (C : d = 0 \/ d = 1 \/ d = 2 \/ d = 3 \/ d = 4 \/ d = 5 \/ d = 6
              \/ d = 7 \/ d = 8 \/ d = 9) by lia.
  repeat (destruct C as [-> | C]; [reflexivity|]). now subst d.
Qed.

Lemma digitsOf_S fuel n :
  JS.digitsOf (S fuel) n
  = (if n <? 10 then "" else JS.digitsOf fuel (n / 10))
    ++ String (JS.digitChar (n mod 10)) "".
Proof. reflexivity. Qed.

Lemma valueOf_digitsOf fuel n :
  0 <= n < 10 ^ Z.of_nat fuel -> valueOf 0 (JS.digitsOf fuel n) = n.
Proof.
  revert n. induction fuel as [|fuel IH]; intros n Hn.
  - simpl in *. lia.
  - rewrite digitsOf_S, valueOf_app.
    rewrite valueOf_digitChar by (pose proof (Z.mod_pos_bound n 10); lia).
    destruct (n <? 10) eqn:E.
    + apply Z.ltb_lt in E. simpl. rewrite Z.mod_small; lia.
    + apply Z.ltb_ge in E. rewrite IH.
      * pose proof (Z.div_mod n 10). lia.
      * rewrite Nat2Z.inj_succ, Z.pow_succ_r in Hn by lia.
        split; [apply Z.div_pos; lia|].
        apply Z.div_lt_upper_bound; lia.
Qed.

(** The fuel [String(n)] is given covers the digits of [n]. *)
Lemma fuel_enough a : 0 <= a -> a < 10 ^ Z.of_nat (S (Z.to_nat (Z.log2 a))).
Proof.
  intros Ha. rewrite Nat2Z.inj_succ, Z2Nat.id by apply Z.log2_nonneg.
  destruct (Z.eq_dec a 0) as [->|Hne]; [reflexivity|].
  pose proof (Z.log2_spec a ltac:(lia)) as [_ Hlt].
  apply Z.lt_le_trans with (1 := Hlt).
  apply Z.pow_le_mono_l. pose proof (Z.log2_nonneg a). lia.
Qed.

Lemma digitsOf_head fuel n :
  0 <= n ->
  exists d rest,
    0 <= d <= 9 /\ JS.digitsOf (S fuel) n = String (JS.digitChar d) rest.
Proof.
  revert n. induction fuel as [|fuel IH]; intros n Hn.
  - exists (n mod 10), "". split; [pose proof (Z.mod_pos_bound n 10); lia|].
    rewrite digitsOf_S. simpl JS.digitsOf. now destruct (n <? 10).
  - rewrite digitsOf_S. destruct (n <? 10) eqn:E.
    + exists (n mod 10), "".
      split; [pose proof (Z.mod_pos_bound n 10); lia | reflexivity].
    + destruct (IH (n / 10)) as (d & rest & Hd & ->);
        [apply Z.div_pos; lia|].
      exists d, (rest ++ String (JS.digitChar (n mod 10)) "")%string.
      split; [exact Hd | reflexivity].
Qed.

Lemma readNumber_digit d rest :
  0 <= d <= 9 ->
  readNumber (String (JS.digitChar d) rest)
  = valueOf 0 (String (JS.digitChar d) rest).
Proof.
  intros H.
  assert (C : d = 0 \/ d = 1 \/ d = 2 \/ d = 3 \/ d = 4 \/ d = 5 \/ d = 6
              \/ d = 7 \/ d = 8 \/ d = 9) by lia.
  repeat (destruct C as [-> | C]; [reflexivity|]). now subst d.
Qed.

(** The decimal string of an integer is read back as the integer. *)
Lemma readNumber_numberToString n : readNumber (JS.numberToString n) = n.
Proof.
  unfold JS.numberToString. cbv zeta. destruct (n <? 0) eqn:E.
  - apply Z.ltb_lt in E.
    change (readNumber ("-" ++ ?s)) with (- valueOf 0 s).
    rewrite valueOf_digitsOf; [lia|].
    split; [lia | apply fuel_enough; lia].
  - apply Z.ltb_ge in E.
    change (readNumber ("" ++ ?s)) with (readNumber s).
    destruct (digitsOf_head (Z.to_nat (Z.log2 (Z.abs n))) (Z.abs n))
      as (d & rest & Hd & Hs); [lia|].
    rewrite Hs, readNumber_digit, <- Hs by exact Hd.
    rewrite valueOf_digitsOf; [lia|].
    split; [lia | apply fuel_enough; lia].
Qed.

(** X15. Ids without [crypto.randomUUID].  The id a sign-in makes from the
    clock is read back as the clock reading, so two records made this way
    have the same id only when they were made at the same reading of the
    clock; where the browser has [crypto.randomUUID], the id is the value
    it returns and the clock plays no part. *)
Theorem fallback_id_is_the_clock_reading :
  (forall tId tNow first last agency reasonVal other,
      readNumber
        (id (newRecord None tId tNow first last agency reasonVal other))
      = tId) /\
  (forall t t' tNow tNow' first first' last last' agency agency'
          reasonVal reasonVal' other other',
      id (newRecord None t tNow first last agency reasonVal other)
      = id (newRecord None t' tNow' first' last' agency' reasonVal' other') ->
      t = t') /\
  (forall uuid tId tNow first last agency reasonVal other,
      id (newRecord (Some uuid) tId tNow first last agency reasonVal other)
      = uuid).
Proof.
  split; [|split].
  - intros. apply readNumber_numberToString.
  - intros t t' tNow tNow' first first' last last' agency agency'
           reasonVal reasonVal' other other' H. simpl in H.
    rewrite <- (readNumber_numberToString t), H.
    apply readNumber_numberToString.
  - reflexivity.
Qed.

Local Close Scope Z_scope.

Lemma string_length_app (s t : string) :
  String.length (s ++ t) = (String.length s + String.length t)%nat.
Proof. induction s as [|c s IH]; simpl; congruence. Qed.

Lemma length_padDigits w n : String.length (JS.padDigits w n) = w.
Proof.
  revert n. induction w as [|w IH]; intros n; [reflexivity|].
  simpl. rewrite string_length_app, IH. simpl. lia.
Qed.

Lemma sliceTo_app n s t :
  (n <= String.length s)%nat -> sliceTo n (s ++ t) = sliceTo n s.
Proof.
  revert s. induction n as [|n IH]; intros s H.
  - now destruct s.
  - destruct s as [|c s]; simpl in *; [lia|]. rewrite IH by lia. reflexivity.
Qed.

Lemma sliceTo_all s : sliceTo (String.length s) s = s.
Proof. induction s as [|c s IH]; simpl; congruence. Qed.

Lemma length_dateString y m d :
  String.length (dateString y m d)
  = if ((0 <=? y) && (y <=? 9999))%Z then 10%nat else 13%nat.
Proof.
  unfold dateString. rewrite !string_length_app, !length_padDigits.
  destruct ((0 <=? y) && (y <=? 9999))%Z.
  - now rewrite length_padDigits.
  - rewrite string_length_app, length_padDigits.
    now destruct (y <? 0)%Z.
Qed.

Lemma toISOString_date t :
  exists time,
    JS.toISOString t
    = (let '(y, m, d) := JS.civilFromDays (t / JS.msPerDay) in
       dateString y m d) ++ time.
Proof.
  unfold JS.toISOString, dateString.
  destruct (JS.civilFromDays (t / JS.msPerDay)) as [[y m] d].
  eexists. rewrite !app_assoc'. reflexivity.
Qed.

(** X16. The name of the exported file.  It carries the first ten
    characters of the ISO timestamp of the click, so it depends on the UTC
    day of the click only; for a day of the years 0 to 9999 it is
    [AAMU_RED_GuestLog_YYYY-MM-DD.csv] with that day's UTC date. *)
Theorem exportFileName_is_the_utc_day now :
  (forall now',
      (now / JS.msPerDay = now' / JS.msPerDay)%Z ->
      exportFileName now = exportFileName now') /\
  (forall y m d,
      JS.civilFromDays (now / JS.msPerDay) = (y, m, d) ->
      (0 <= y <= 9999)%Z ->
      exportFileName now
      = "AAMU_RED_GuestLog_" ++ JS.padDigits 4 y ++ "-" ++ JS.padDigits 2 m
        ++ "-" ++ JS.padDigits 2 d ++ ".csv").
Proof.
  assert (S : forall t,
             sliceTo 10 (JS.toISOString t)
             = sliceTo 10
                 (let '(y, m, d) := JS.civilFromDays (t / JS.msPerDay) in
                  dateString y m d)).
  { intros t. destruct (toISOString_date t) as [time ->].
    apply sliceTo_app.
    destruct (JS.civilFromDays (t / JS.msPerDay)) as [[y m] d].
    rewrite length_dateString.
    destruct ((0 <=? y) && (y <=? 9999))%Z; lia. }
  unfold exportFileName. split.
  - intros now' E. now rewrite !S, E.
  - intros y m d C [Hy1 Hy2]. rewrite S, C.
    assert (R : ((0 <=? y) && (y <=? 9999))%Z = true)
      by (apply andb_true_intro; split; apply Z.leb_le; lia).
    pose proof (length_dateString y m d) as L. rewrite R in L.
    rewrite <- L, sliceTo_all. unfold dateString. rewrite R.
    now rewrite !app_assoc'.
Qed.

End IdsAndNames.

(** ** No visit stays open for ever *)

Section Eventually.

Implicit Types (st : Storage) (r : VisitRecord)
  (records : list VisitRecord).




End Eventually.
